(** * List_Combo: extraction and reconciliation of material lists

    A shallow embedding of [main.py].  Python strings are sequences of
    Unicode code points; the functions that can raise are written in an
    error monad; the built-ins and library operations the program relies
    on but does not define ([float], [str.lower], [str.upper], the sum of
    a group of a data frame) are fields of a class, and the workbook
    writer is part of the world [main] runs in. *)

From Stdlib Require Import String Ascii.
From Stdlib Require Import List NArith Bool Arith Lia.
From Stdlib Require Import Permutation Sorted QArith Qcanon.
Import ListNotations.

Close Scope Qc_scope.
Close Scope Q_scope.
Open Scope nat_scope.

Set Implicit Arguments.

(** ** Python strings *)

Module PyStr.

(** A code point. *)
Definition char := N.

(** A [str] value. *)
Definition str := list char.

(** An ASCII literal as a [str]. *)
Definition lit (s : string) : str :=
  map N_of_ascii (list_ascii_of_string s).

Definition char_eqb (a b : char) : bool := N.eqb a b.

Fixpoint str_eqb (a b : str) : bool :=
  match a, b with
  | [], [] => true
  | x :: a', y :: b' => char_eqb x y && str_eqb a' b'
  | _, _ => false
  end.

(** Code-point lexicographic comparison, the order of [<] on [str]. *)
Fixpoint str_compare (a b : str) : comparison :=
  match a, b with
  | [], [] => Eq
  | [], _ :: _ => Lt
  | _ :: _, [] => Gt
  | x :: a', y :: b' =>
      match N.compare x y with
      | Eq => str_compare a' b'
      | c => c
      end
  end.

Definition str_leb (a b : str) : bool :=
  match str_compare a b with Gt => false | _ => true end.

(** [str.isspace] on one code point: the code points [str.split()] and
    [str.strip()] treat as white space. *)
Definition isspace (c : char) : bool :=
  ((9 <=? c) && (c <=? 13) || (28 <=? c) && (c <=? 32)
   || (c =? 133) || (c =? 160) || (c =? 5760)
   || (8192 <=? c) && (c <=? 8202)
   || (c =? 8232) || (c =? 8233) || (c =? 8239) || (c =? 8287)
   || (c =? 12288))%N.

Definition SPACE : char := 32%N.
Definition THIN_SPACE : char := 8201%N.      (* U+2009 *)
Definition NO_BREAK_SPACE : char := 160%N.   (* U+00A0 *)

(** [s.lstrip()], [s.rstrip()], [s.strip()]. *)
Fixpoint lstrip (s : str) : str :=
  match s with
  | [] => []
  | c :: s' => if isspace c then lstrip s' else s
  end.

Fixpoint rstrip (s : str) : str :=
  match s with
  | [] => []
  | c :: s' =>
      match rstrip s' with
      | [] => if isspace c then [] else [c]
      | r => c :: r
      end
  end.

Definition strip (s : str) : str := rstrip (lstrip s).

(** [s.split()]: the maximal runs of non-space code points, in order. *)
Fixpoint split (s : str) : list str :=
  match s with
  | [] => []
  | c :: s' =>
      if isspace c then split s'
      else match s' with
           | [] => [[c]]
           | d :: _ =>
               if isspace d then [c] :: split s'
               else match split s' with
                    | w :: ws => (c :: w) :: ws
                    | [] => [[c]]
                    end
           end
  end.

(** [sep.join(ws)]. *)
Fixpoint join (sep : str) (ws : list str) : str :=
  match ws with
  | [] => []
  | w :: ws' =>
      match ws' with
      | [] => w
      | _ :: _ => w ++ sep ++ join sep ws'
      end
  end.

(** [s.replace(old, new)] for a one-code-point [old]. *)
Definition replace (old : char) (new : str) (s : str) : str :=
  flat_map (fun c => if char_eqb c old then new else [c]) s.

(** [s.split(sep)] for a one-code-point [sep]: never empty. *)
Fixpoint split_on (sep : char) (s : str) : list str :=
  match s with
  | [] => [[]]
  | c :: s' =>
      if char_eqb c sep then [] :: split_on sep s'
      else match split_on sep s' with
           | w :: ws => (c :: w) :: ws
           | [] => [[c]]
           end
  end.

(** [s.startswith(p)]. *)
Fixpoint startswith (s p : str) : bool :=
  match p, s with
  | [], _ => true
  | _ :: _, [] => false
  | y :: p', x :: s' => char_eqb x y && startswith s' p'
  end.

(** [needle in hay] on strings: substring test. *)
Fixpoint contains (needle hay : str) : bool :=
  startswith hay needle
  || match hay with
     | [] => false
     | _ :: hay' => contains needle hay'
     end.

(** Line boundaries of [str.splitlines()]. *)
Definition is_linebreak (c : char) : bool :=
  ((10 <=? c) && (c <=? 13) || (28 <=? c) && (c <=? 30)
   || (c =? 133) || (c =? 8232) || (c =? 8233))%N.

(** [s.splitlines()]: a CR LF pair is one boundary, and a boundary at the
    very end opens no further line. *)
Fixpoint splitlines (s : str) : list str :=
  match s with
  | [] => []
  | c :: s' =>
      if is_linebreak c then
        match s' with
        | d :: s'' =>
            if (c =? 13)%N && (d =? 10)%N
            then [] :: splitlines s''
            else [] :: splitlines s'
        | [] => [[]]
        end
      else match splitlines s' with
           | l :: ls => (c :: l) :: ls
           | [] => [[c]]
           end
  end.

(** Truthiness of a [str]: [not s]. *)
Definition is_empty (s : str) : bool :=
  match s with [] => true | _ :: _ => false end.

Definition is_nil {A : Type} (l : list A) : bool :=
  match l with [] => true | _ :: _ => false end.

(** Membership in a set (or list) of strings: [x in s]. *)
Definition in_set (x : str) (s : list str) : bool := existsb (str_eqb x) s.

End PyStr.
Export PyStr.

(** ** Exceptions *)

Inductive exn : Type :=
| IndexError
| ValueError
| FileNotFoundError (msg : str)
| RuntimeError (msg : str)
| LibraryError (name : str).

(** The outcome of running a piece of the program: a value, an exception
    that reached the caller, or a loop that used up its iteration budget. *)
Inductive result (A : Type) : Type :=
| Ok (a : A)
| Raise (e : exn)
| OutOfFuel.

Arguments Ok {A} a.
Arguments Raise {A} e.
Arguments OutOfFuel {A}.

Definition bind {A B : Type} (m : result A) (k : A -> result B) : result B :=
  match m with
  | Ok a => k a
  | Raise e => Raise e
  | OutOfFuel => OutOfFuel
  end.

Notation "x <- m ;; k" := (bind m (fun x => k))
  (at level 61, m at next level, right associativity).

(** [l[i]] for a non-negative [i]. *)
Definition index {A : Type} (l : list A) (i : nat) : result A :=
  match nth_error l i with
  | Some x => Ok x
  | None => Raise IndexError
  end.

(** A [for] loop whose body either appends one record to [rows] or
    [continue]s. *)
Fixpoint for_append {A R : Type} (body : A -> result (option R))
    (xs : list A) (rows : list R) : result (list R) :=
  match xs with
  | [] => Ok rows
  | x :: xs' =>
      o <- body x ;;
      for_append body xs' (match o with Some r => rows ++ [r] | None => rows end)
  end.

(** A [for] loop whose body [extend]s [rows]. *)
Fixpoint for_extend {A R : Type} (body : A -> result (list R))
    (xs : list A) (rows : list R) : result (list R) :=
  match xs with
  | [] => Ok rows
  | x :: xs' =>
      more <- body x ;;
      for_extend body xs' (rows ++ more)
  end.

(** ** Built-ins of the language the program calls *)

(** [float_of_str s] is [float(s)], [None] standing for [ValueError];
    [fzero] is [0.0]; [fsum qs] is the [sum] aggregation of the data-frame
    library on the quantities [qs] of one group, taken in row order (on
    doubles a compensated sum that skips NaN, not a plain fold of [+]);
    [fleb] is the order the sort uses on floats; [lower] and [upper] are
    [str.lower] and [str.upper]. *)
Class PyBuiltins : Type := {
  float : Type;
  float_of_str : str -> option float;
  fzero : float;
  fsum : list float -> float;
  fleb : float -> float -> bool;
  lower : str -> str;
  upper : str -> str
}.

(** The order the sort uses on size values is a total preorder. *)
Class FloatOrder (B : PyBuiltins) : Prop := {
  fleb_total : forall x y : float, fleb x y = true \/ fleb y x = true;
  fleb_trans : forall x y z : float,
      fleb x y = true -> fleb y z = true -> fleb x z = true
}.

(** ** The program *)

Section Program.

Context {B : PyBuiltins}.

Definition NORMALIZE_SPACES : bool := true.

Definition HEADER_HINTS : list str :=
  [lit "quantity"; lit "units"; lit "size"; lit "description"].

(** [normalize_text(s)]; [None] is Python's [None]. *)
Definition normalize_text (s : option str) : str :=
  match s with
  | None => []
  | Some s =>
      let s := strip s in
      let s := if NORMALIZE_SPACES then join [SPACE] (split s) else s in
      let s := replace NO_BREAK_SPACE [SPACE] (replace THIN_SPACE [SPACE] s) in
      join [SPACE] (split s)
  end.

(** [make_item_key(size, description, units)]. *)
Definition make_item_key (size description units : str) : str :=
  let size_n := lower (normalize_text (Some size)) in
  let desc_n := lower (normalize_text (Some description)) in
  let units_n := lower (normalize_text (Some units)) in
  units_n ++ lit " | " ++ size_n ++ lit " | " ++ desc_n.

(** One extracted record (a row of the raw data frame). *)
Record Row : Type := mkRow {
  source : str;
  quantity : float;
  units : str;
  size : str;
  description : str;
  item_key : str
}.

(** A table as the page decoder gives it: rows of cells, a cell a string or
    [None]. *)
Definition table_grid : Type := list (list (option str)).

(** [find_col(name)] over the enumerated [header]. *)
Fixpoint find_col_from (header : list str) (name : str) (i : nat) : option nat :=
  match header with
  | [] => None
  | h :: hs => if contains name h then Some i else find_col_from hs name (S i)
  end.

Definition find_col (header : list str) (name : str) : option nat :=
  find_col_from header name 0.

(** The header row as the extractor reads it. *)
Definition table_header (row0 : list (option str)) : list str :=
  map (fun x => lower (normalize_text x)) row0.

(** The body of the loop over the data rows; [None] is [continue]. *)
Definition table_row (source_name : str) (idx_qty idx_units idx_size idx_desc : nat)
    (r : list (option str)) : result (option Row) :=
  if is_nil r
     || (length r <? Nat.max (Nat.max idx_qty idx_units) (Nat.max idx_size idx_desc) + 1)
  then Ok None
  else
    c_qty <- index r idx_qty ;;
    let qty_raw := normalize_text c_qty in
    c_units <- index r idx_units ;;
    let units := normalize_text c_units in
    c_size <- index r idx_size ;;
    let size := normalize_text c_size in
    c_desc <- index r idx_desc ;;
    let desc := normalize_text c_desc in
    if is_empty qty_raw || is_empty units || is_empty desc then Ok None
    else
      match float_of_str qty_raw with
      | None => Ok None
      | Some qty =>
          Ok (Some (mkRow source_name qty units size desc
                          (make_item_key size desc units)))
      end.

(** The [return] statement through which [extract_rows_from_table] leaves:
    the size guard, the header-hint guard, the column guard, or the end. *)
Inductive table_exit : Type :=
| ExitNoTable
| ExitNoHint
| ExitNoColumn
| ExitRows.

(** [extract_rows_from_table(table, source_name)], with the exit taken. *)
Definition extract_rows_from_table_exit (table : option table_grid)
    (source_name : str) : result (table_exit * list Row) :=
  let rows : list Row := [] in
  match table with
  | None => Ok (ExitNoTable, rows)
  | Some table =>
      if is_nil table || (length table <? 2) then Ok (ExitNoTable, rows)
      else
        row0 <- index table 0 ;;
        let header := table_header row0 in
        if negb (existsb (fun h => in_set h HEADER_HINTS) header)
        then Ok (ExitNoHint, rows)
        else
          match find_col header (lit "quantity"), find_col header (lit "units"),
                find_col header (lit "size"), find_col header (lit "description")
          with
          | Some idx_qty, Some idx_units, Some idx_size, Some idx_desc =>
              rows <- for_append
                        (table_row source_name idx_qty idx_units idx_size idx_desc)
                        (List.tl table) rows ;;
              Ok (ExitRows, rows)
          | _, _, _, _ => Ok (ExitNoColumn, rows)
          end
  end.

Definition extract_rows_from_table (table : option table_grid)
    (source_name : str) : result (list Row) :=
  x <- extract_rows_from_table_exit table source_name ;;
  Ok (snd x).

(** The state of the [while] loop of [stitch_wrapped_lines]. *)
Definition stitch_state : Type := (nat * list str)%type.

(** The [try] block of the loop: [Some] is the state at its [continue],
    [None] means control falls out of the [if]. *)
Definition stitch_try (lines : list str) (i : nat) (stitched : list str)
    (cur qty_raw unit_raw : str) : result (option stitch_state) :=
  match float_of_str qty_raw with
  | None => Ok None
  | Some _ =>
      if in_set (upper unit_raw) [lit "EA"; lit "LF"] && (i + 1 <? length lines)
      then
        l <- index lines (i + 1) ;;
        let nxt := normalize_text (Some l) in
        if negb (is_empty nxt)
        then Ok (Some (i + 2, stitched ++ [cur ++ [SPACE] ++ nxt]))
        else Ok None
      else Ok None
  end.

(** One iteration of the loop. *)
Definition stitch_step (lines : list str) (st : stitch_state) : result stitch_state :=
  let (i, stitched) := st in
  l <- index lines i ;;
  let cur := normalize_text (Some l) in
  if is_empty cur then Ok (i + 1, stitched)
  else
    let parts := split cur in
    wrapped <- match parts with
               | [qty_raw; unit_raw] => stitch_try lines i stitched cur qty_raw unit_raw
               | _ => Ok None
               end ;;
    match wrapped with
    | Some st' => Ok st'
    | None => Ok (i + 1, stitched ++ [cur])
    end.

Fixpoint stitch_loop (fuel : nat) (lines : list str) (st : stitch_state)
  : result (list str) :=
  if fst st <? length lines then
    match fuel with
    | O => OutOfFuel
    | S fuel' =>
        st' <- stitch_step lines st ;;
        stitch_loop fuel' lines st'
    end
  else Ok (snd st).

(** [stitch_wrapped_lines(lines)]: every iteration moves [i] forward, so
    [len(lines)] iterations are a budget the loop cannot exceed. *)
Definition stitch_wrapped_lines (lines : list str) : result (list str) :=
  stitch_loop (length lines) lines (0, []).

Definition DESC_START_TOKENS : list str :=
  [lit "type"; lit "propress"; lit "wrot"; lit "threaded"; lit "butterfly";
   lit "bolts"; lit "valve"; lit "adapter"; lit "coupling"; lit "cap";
   lit "tee"; lit "ell"; lit "reducer"; lit "flange"; lit "plug"; lit "tube";
   lit "street"; lit "measurement/balancing"].

(** The test of [find_desc_start_index] on one token. *)
Definition is_desc_start (t : str) : bool :=
  let tt := lower t in
  existsb (fun k => str_eqb tt k || startswith tt k) DESC_START_TOKENS.

Fixpoint find_desc_start_from (tokens : list str) (i : nat) : option nat :=
  match tokens with
  | [] => None
  | t :: ts => if is_desc_start t then Some i else find_desc_start_from ts (S i)
  end.

Definition find_desc_start_index (tokens : list str) : option nat :=
  find_desc_start_from tokens 0.

(** The body of the loop over the stitched lines; [None] is [continue]. *)
Definition text_row (source_name : str) (line : str) : result (option Row) :=
  let line := normalize_text (Some line) in
  if is_empty line then Ok None
  else
    let low := lower line in
    if startswith low (lit "dkc -") || startswith low (lit "quantity units")
    then Ok None
    else
      let parts := split line in
      if length parts <? 4 then Ok None
      else
        qty_raw <- index parts 0 ;;
        units_raw <- index parts 1 ;;
        match float_of_str qty_raw with
        | None => Ok None
        | Some qty =>
            let units := normalize_text (Some units_raw) in
            if negb (in_set (upper units) [lit "EA"; lit "LF"]) then Ok None
            else
              let remainder := skipn 2 parts in
              let desc_start := find_desc_start_index remainder in
              let (size, desc) :=
                match desc_start with
                | None | Some O => ([], join [SPACE] remainder)
                | Some k => (join [SPACE] (firstn k remainder),
                             join [SPACE] (skipn k remainder))
                end in
              let size := normalize_text (Some size) in
              let desc := normalize_text (Some desc) in
              if is_empty desc then Ok None
              else Ok (Some (mkRow source_name qty units size desc
                                   (make_item_key size desc units)))
        end.

(** [extract_rows_from_text(text, source_name)]. *)
Definition extract_rows_from_text (text : option str) (source_name : str)
  : result (list Row) :=
  let rows : list Row := [] in
  match text with
  | None => Ok rows
  | Some text =>
      if is_empty text then Ok rows
      else
        let raw_lines := splitlines text in
        lines <- stitch_wrapped_lines raw_lines ;;
        for_append (text_row source_name) lines rows
  end.

(** A page as the document decoder exposes it: the results of
    [page.extract_table()] and [page.extract_text()]. *)
Record Page : Type := mkPage {
  extract_table : option table_grid;
  extract_text : option str
}.

(** An opened PDF: the stem of its path and its pages. *)
Record PdfFile : Type := mkPdf {
  stem : str;
  pages : list Page
}.

(** The rows one page adds to [all_rows]: the table rows, then the text
    rows when fewer than two table rows were found. *)
Definition page_rows (source_name : str) (page : Page) : result (list Row) :=
  let table := extract_table page in
  table_rows <- extract_rows_from_table table source_name ;;
  if length table_rows <? 2 then
    let page_text :=
      match extract_text page with
      | Some t => if is_empty t then [] else t
      | None => []
      end in
    text_rows <- extract_rows_from_text (Some page_text) source_name ;;
    Ok (table_rows ++ text_rows)
  else Ok table_rows.

(** [extract_pdf(pdf_path)]. *)
Definition extract_pdf (pdf_path : PdfFile) : result (list Row) :=
  let source_name := stem pdf_path in
  for_extend (page_rows source_name) (pages pdf_path) [].

(** [size_to_float(size)]. *)
Definition size_to_float (size : option str) : result float :=
  match size with
  | None => Ok fzero
  | Some size =>
      if is_empty size then Ok fzero
      else
        let s := replace 190%N (lit ".75")
                   (replace 189%N (lit ".5") (replace 188%N (lit ".25") size)) in
        s0 <- index (split_on 120%N s) 0 ;;
        let s := strip s0 in
        s <- index (split s) 0 ;;
        match float_of_str s with
        | Some f => Ok f
        | None => Ok fzero
        end
  end.

(** A row of the [master] data frame. *)
Record MasterRow : Type := mkMaster {
  m_item_key : str;
  m_units : str;
  m_size : str;
  m_description : str;
  m_quantity : float
}.

(** The columns [groupby] is given. *)
Definition group_key_t : Type := (str * str * str * str)%type.

Definition group_key (r : Row) : group_key_t :=
  (item_key r, units r, size r, description r).

Definition key_compare (a b : group_key_t) : comparison :=
  let '(a1, a2, a3, a4) := a in
  let '(b1, b2, b3, b4) := b in
  match str_compare a1 b1 with
  | Eq => match str_compare a2 b2 with
          | Eq => match str_compare a3 b3 with
                  | Eq => str_compare a4 b4
                  | c => c
                  end
          | c => c
          end
  | c => c
  end.

Fixpoint insert_key (k : group_key_t) (ks : list group_key_t) : list group_key_t :=
  match ks with
  | [] => [k]
  | k' :: ks' =>
      match key_compare k k' with
      | Lt => k :: ks
      | Eq => ks
      | Gt => k' :: insert_key k ks'
      end
  end.

(** The distinct group keys, in ascending order. *)
Definition group_keys (rows : list Row) : list group_key_t :=
  fold_right insert_key [] (map group_key rows).

Definition in_group (k : group_key_t) (r : Row) : bool :=
  match key_compare (group_key r) k with Eq => true | _ => false end.

(** The [sum] of a group: the library's sum of its quantities, handed
    over in row order. *)
Definition group_sum (k : group_key_t) (rows : list Row) : float :=
  fsum (map quantity (filter (in_group k) rows)).

(** [df.groupby([item_key, units, size, description], as_index=False)
    .agg(quantity=(quantity, sum))]: one row per distinct key tuple, in
    key order. *)
Definition groupby_sum (rows : list Row) : list MasterRow :=
  map (fun k => let '(ik, u, s, d) := k in mkMaster ik u s d (group_sum k rows))
      (group_keys rows).

Definition unit_order : list (str * nat) := [(lit "LF", 0); (lit "EA", 1)].

(** [d.get(k, default)]. *)
Fixpoint dict_get (d : list (str * nat)) (k : str) (default : nat) : nat :=
  match d with
  | [] => default
  | (k', v) :: d' => if str_eqb k k' then v else dict_get d' k default
  end.

(** A master row with the two helper columns. *)
Record SortRow : Type := mkSortRow {
  row : MasterRow;
  unit_sort : nat;
  size_sort : float
}.

Definition with_unit_sort (m : MasterRow) : nat :=
  dict_get unit_order (upper (m_units m)) 99.

(** [master[size].apply(size_to_float)], next to the unit column. *)
Fixpoint add_sort_columns (master : list MasterRow) : result (list SortRow) :=
  match master with
  | [] => Ok []
  | m :: master' =>
      f <- size_to_float (Some (m_size m)) ;;
      rest <- add_sort_columns master' ;;
      Ok (mkSortRow m (with_unit_sort m) f :: rest)
  end.

(** Ascending order on [unit_sort, description, size_sort]. *)
Definition sort_leb (a b : SortRow) : bool :=
  match Nat.compare (unit_sort a) (unit_sort b) with
  | Lt => true
  | Gt => false
  | Eq =>
      match str_compare (m_description (row a)) (m_description (row b)) with
      | Lt => true
      | Gt => false
      | Eq => fleb (size_sort a) (size_sort b)
      end
  end.

Fixpoint sort_insert (x : SortRow) (l : list SortRow) : list SortRow :=
  match l with
  | [] => [x]
  | y :: l' => if sort_leb x y then x :: l else y :: sort_insert x l'
  end.

(** [sort_values(by=[unit_sort, description, size_sort])], as a stable
    insertion sort. *)
Definition sort_values (l : list SortRow) : list SortRow :=
  fold_right sort_insert [] l.

(** The master list after sorting and dropping the helper columns. *)
Definition sorted_master (master : list MasterRow) : result (list MasterRow) :=
  keyed <- add_sort_columns master ;;
  Ok (map row (sort_values keyed)).

(** The two sheets of the output workbook. *)
Record Workbook : Type := mkWorkbook {
  sheet_Master : list MasterRow;
  sheet_RawExtract : list Row
}.

(** The content of the output file: a workbook written in full, or what
    a writer that failed has left behind. *)
Inductive file_content : Type :=
| FullWorkbook (wb : Workbook)
| BrokenFile.

(** What [main] reads and writes: the input folder (its existence, its
    resolved path, its PDFs in sorted order), the output folder and file,
    and the workbook writer of the environment.  [excel_writer old master
    df] is the whole [with pd.ExcelWriter(...)] block run on the two data
    frames when the output file holds [old]: the content it leaves in the
    file and how it ends.  It can fail (a locked file, a full disk, a cell
    text the workbook library refuses), and the block saves what was
    written before the failure. *)
Record World : Type := mkWorld {
  input_dir_exists : bool;
  input_dir_resolved : str;
  input_pdfs : list PdfFile;
  output_dir_exists : bool;
  output_file : option file_content;
  excel_writer : option file_content -> list MasterRow -> list Row
                 -> option file_content * result unit
}.

Definition mkdir_output (w : World) : World :=
  mkWorld (input_dir_exists w) (input_dir_resolved w) (input_pdfs w)
          true (output_file w) (excel_writer w).

(** The [with] block at the end of [main]: the world it leaves and how
    it ends. *)
Definition write_output (w : World) (master : list MasterRow) (df : list Row)
  : World * result unit :=
  let (file, res) := excel_writer w (output_file w) master df in
  (mkWorld (input_dir_exists w) (input_dir_resolved w) (input_pdfs w)
           (output_dir_exists w) file (excel_writer w),
   res).

(** [main()]: the world it leaves and how it ends. *)
Definition main (w : World) : World * result unit :=
  if negb (input_dir_exists w)
  then (w, Raise (FileNotFoundError (lit "Missing folder: " ++ input_dir_resolved w)))
  else
    let w := mkdir_output w in
    let pdf_files := input_pdfs w in
    if is_nil pdf_files
    then (w, Raise (FileNotFoundError (lit "No PDFs found.")))
    else
      match for_extend extract_pdf pdf_files [] with
      | Raise e => (w, Raise e)
      | OutOfFuel => (w, OutOfFuel)
      | Ok rows =>
          if is_nil rows
          then (w, Raise (RuntimeError (lit "No rows extracted.")))
          else
            let df := rows in
            let master := groupby_sum df in
            match sorted_master master with
            | Raise e => (w, Raise e)
            | OutOfFuel => (w, OutOfFuel)
            | Ok master => write_output w master df
            end
      end.

End Program.

(** ** An instance for running the program on examples

    Quantities are exact rationals and their sum is exact, [float] reads
    the decimal literals [[+-]digits[.digits]], and case mapping acts on
    the ASCII letters.  On
    ASCII input with such literals it agrees with the interpreter wherever
    the sums involved are exactly representable. *)

Module Decimal.

Definition lower_char (c : char) : char :=
  if ((65 <=? c) && (c <=? 90))%N then (c + 32)%N else c.

Definition upper_char (c : char) : char :=
  if ((97 <=? c) && (c <=? 122))%N then (c - 32)%N else c.

Fixpoint digits_value (s : str) (acc : N) : option N :=
  match s with
  | [] => Some acc
  | c :: s' =>
      if ((48 <=? c) && (c <=? 57))%N
      then digits_value s' (acc * 10 + (c - 48))%N
      else None
  end.

Definition signed (neg : bool) (q : Q) : Qc :=
  Q2Qc (if neg then Qopp q else q).

Definition unsigned_of_str (neg : bool) (body : str) : option Qc :=
  match split_on 46%N body with
  | [ip] =>
      if is_empty ip then None
      else match digits_value ip 0 with
           | Some a => Some (signed neg (Qmake (Z.of_N a) 1))
           | None => None
           end
  | [ip; fp] =>
      if is_empty ip && is_empty fp then None
      else match digits_value ip 0, digits_value fp 0 with
           | Some a, Some b =>
               let scale := (10 ^ N.of_nat (length fp))%N in
               Some (signed neg (Qmake (Z.of_N (a * scale + b))
                                       (Pos.of_nat (N.to_nat scale))))
           | _, _ => None
           end
  | _ => None
  end.

Definition decimal_of_str (s : str) : option Qc :=
  match s with
  | 45%N :: body => unsigned_of_str true body
  | 43%N :: body => unsigned_of_str false body
  | _ => unsigned_of_str false s
  end.

Definition builtins : PyBuiltins := {|
  float := Qc;
  float_of_str := decimal_of_str;
  fzero := Q2Qc 0;
  fsum := fun qs => fold_left Qcplus qs (Q2Qc 0);
  fleb := fun x y => Qle_bool x y;
  lower := map lower_char;
  upper := map upper_char
|}.

(** The numerator and denominator of a quantity, for reading results. *)
Definition qc_pair (q : Qc) : Z * positive := (Qnum q, Qden q).

End Decimal.

(** ** Vocabulary of the statements *)

(** A token: non-empty and free of white space. *)
Definition word (w : str) : Prop :=
  w <> [] /\ forallb (fun c => negb (isspace c)) w = true.

(** The string is empty or begins with white space. *)
Definition starts_space (s : str) : bool :=
  match s with
  | [] => true
  | d :: _ => isspace d
  end.

(** The part of a size before its first [x], after the fraction glyphs
    have been replaced. *)
Definition before_first_x (size : str) : str :=
  hd [] (split_on 120%N
           (replace 190%N (lit ".75")
              (replace 189%N (lit ".5") (replace 188%N (lit ".25") size)))).

Section Vocabulary.

Context {B : PyBuiltins}.

(** A line that is a wrapped quantity and unit: exactly two tokens, the
    first read by [float], the second [EA] or [LF] in upper case. *)
Definition is_wrapped_prefix (cur : str) : bool :=
  match split cur with
  | [qty_raw; unit_raw] =>
      match float_of_str qty_raw with
      | Some _ => in_set (upper unit_raw) [lit "EA"; lit "LF"]
      | None => false
      end
  | _ => false
  end.

(** The stitching loop read as a recursion on the lines still to visit. *)
Fixpoint stitch_rec (lines : list str) : list str :=
  match lines with
  | [] => []
  | l :: rest =>
      let cur := normalize_text (Some l) in
      if is_empty cur then stitch_rec rest
      else
        match rest with
        | l2 :: rest' =>
            let nxt := normalize_text (Some l2) in
            if is_wrapped_prefix cur && negb (is_empty nxt)
            then (cur ++ [SPACE] ++ nxt) :: stitch_rec rest'
            else cur :: stitch_rec rest
        | [] => [cur]
        end
  end.

(** The stitching as the specification words it: normalise every line and
    drop the blank ones first, then join each wrapped prefix with the line
    that follows it among those kept. *)
Fixpoint stitch_kept (kept : list str) : list str :=
  match kept with
  | [] => []
  | cur :: rest =>
      match rest with
      | nxt :: rest' =>
          if is_wrapped_prefix cur
          then (cur ++ [SPACE] ++ nxt) :: stitch_kept rest'
          else cur :: stitch_kept rest
      | [] => [cur]
      end
  end.

Definition stitch_as_specified (lines : list str) : list str :=
  stitch_kept
    (filter (fun l => negb (is_empty l))
            (map (fun l => normalize_text (Some l)) lines)).

(** The prefix checks of the text extractor on a stitched line: not blank,
    not a known noise line, at least four tokens, a quantity [float] reads
    and a unit that is [EA] or [LF] in upper case. *)
Definition text_prefix_ok (line : str) : bool :=
  let line := normalize_text (Some line) in
  let low := lower line in
  let parts := split line in
  negb (is_empty line)
  && negb (startswith low (lit "dkc -") || startswith low (lit "quantity units"))
  && negb (length parts <? 4)
  && match float_of_str (nth 0 parts []) with Some _ => true | None => false end
  && in_set (upper (normalize_text (Some (nth 1 parts [])))) [lit "EA"; lit "LF"].

(** The tokens after quantity and unit. *)
Definition text_remainder (line : str) : list str :=
  skipn 2 (split (normalize_text (Some line))).

(** The tokens of two strings agree up to letter case: the strings differ
    only in case and in the white space around and between the tokens. *)
Definition same_tokens (a b : str) : Prop :=
  map lower (split a) = map lower (split b).

End Vocabulary.

(** Lower-casing works token by token on text whose tokens are separated
    by single spaces. *)
Class CaseByToken (B : PyBuiltins) : Prop := {
  lower_join : forall ws : list str,
      Forall word ws -> lower (join [SPACE] ws) = join [SPACE] (map lower ws)
}.

Section Positions.

Context {B : PyBuiltins}.

(** [k] is the first position of [tokens] holding a description-start
    marker. *)
Definition first_desc_start (tokens : list str) (k : nat) : Prop :=
  k < length tokens
  /\ is_desc_start (nth k tokens []) = true
  /\ forall j, j < k -> is_desc_start (nth j tokens []) = false.

(** A header cell equals a hint token once normalised and lower-cased. *)
Definition header_has_hint (row0 : list (option str)) : Prop :=
  exists cell, In cell row0 /\ In (lower (normalize_text cell)) HEADER_HINTS.

(** A header cell has a hint token as a substring once normalised and
    lower-cased. *)
Definition header_contains_hint (row0 : list (option str)) : bool :=
  existsb (fun h => existsb (fun k => contains k h) HEADER_HINTS)
          (table_header row0).

End Positions.

(** ** Example inputs *)

Module Examples.

Definition B0 : PyBuiltins := Decimal.builtins.

(** A table whose header cells carry the hint words with a trailing dot. *)
Definition dotted_table : table_grid :=
  [ [Some (lit "Quantity."); Some (lit "Units."); Some (lit "Size.");
     Some (lit "Description.")];
    [Some (lit "3"); Some (lit "EA"); Some (lit "1/2"); Some (lit "Ball Valve")] ].

(** A table with one exact header and three approximate ones. *)
Definition plain_table : table_grid :=
  [ [Some (lit "Quantity"); Some (lit "Units (each)"); Some (lit "Pipe Size");
     Some (lit "Item description")];
    [Some (lit "3"); Some (lit "EA"); Some (lit "1/2"); Some (lit "Ball Valve")] ].

(** A wrapped prefix, a blank line, then the description. *)
Definition gapped_lines : list str :=
  [lit "2 EA"; []; lit "Valve 1/2in Bronze"].

Definition wrapped_lines : list str := [lit "2 EA"; lit "Valve 1/2in Bronze"].

Definition lone_prefix : list str := [lit "5 LF"].

(** A page text with the same item written with two unit spellings. *)
Definition two_spellings : str :=
  lit "2 EA 1/2 Ball Valve" ++ [10%N] ++ lit "3 ea 1/2 Ball Valve".

End Examples.

(** ** Orders *)

(** A three-way comparison that decides equality and whose [Lt] is a
    strict order. *)
Record compare_order {A : Type} (cmp : A -> A -> comparison) : Prop := {
  cmp_eq : forall a b, cmp a b = Eq -> a = b;
  cmp_refl : forall a, cmp a a = Eq;
  cmp_antisym : forall a b, cmp b a = CompOpp (cmp a b);
  cmp_trans : forall a b c, cmp a b = Lt -> cmp b c = Lt -> cmp a c = Lt
}.

(** Lexicographic comparison of pairs. *)
Definition lex_compare {A C : Type} (ca : A -> A -> comparison)
    (cc : C -> C -> comparison) (x y : A * C) : comparison :=
  match ca (fst x) (fst y) with
  | Eq => cc (snd x) (snd y)
  | c => c
  end.

Section Reconciliation.

Context {B : PyBuiltins}.

(** The grouping columns of a master row. *)
Definition master_key (m : MasterRow) : group_key_t :=
  (m_item_key m, m_units m, m_size m, m_description m).

Definition key_lt (a b : group_key_t) : Prop := key_compare a b = Lt.

Definition sort_le (a b : SortRow) : Prop := sort_leb a b = true.

(** What the helper columns of a row hold. *)
Definition sort_columns_ok (x : SortRow) : Prop :=
  unit_sort x = with_unit_sort (row x)
  /\ size_to_float (Some (m_size (row x))) = Ok (size_sort x).

End Reconciliation.

Module MoreExamples.

Import Examples.

Definition master_row (u s d : str) (q : Q) : @MasterRow B0 :=
  mkMaster (B := B0) (make_item_key (B := B0) s d u) u s d (Q2Qc q).

(** Master rows with units LF, EA and another one, out of order. *)
Definition mixed_master : list (@MasterRow B0) :=
  [ master_row (lit "XX") (lit "3") (lit "Anchor") 1;
    master_row (lit "ea") (lit "2") (lit "Valve") 2;
    master_row (lit "EA") (lit "1.5") (lit "Valve") 3;
    master_row (lit "LF") (lit "4") (lit "Tube") 4;
    master_row (lit "EA") (lit "9") (lit "Cap") 5 ].

Definition mixed_master_sorted : list (@MasterRow B0) :=
  [ master_row (lit "LF") (lit "4") (lit "Tube") 4;
    master_row (lit "EA") (lit "9") (lit "Cap") 5;
    master_row (lit "EA") (lit "1.5") (lit "Valve") 3;
    master_row (lit "ea") (lit "2") (lit "Valve") 2;
    master_row (lit "XX") (lit "3") (lit "Anchor") 1 ].

(** A writer that never fails: it leaves the two sheets in the file. *)
Definition complete_writer (old : option (@file_content B0))
    (master : list (@MasterRow B0)) (df : list (@Row B0))
  : option (@file_content B0) * result unit :=
  (Some (FullWorkbook (mkWorkbook master df)), Ok tt).

(** A folder with one PDF of one page that has neither table nor text. *)
Definition blank_world : @World B0 :=
  mkWorld (B := B0) true (lit "/work/input_pdfs")
          [mkPdf (lit "blank") [mkPage None None]] false None complete_writer.

(** A page whose text has a line with a size that begins with the
    dimension separator. *)
Definition leading_x_world : @World B0 :=
  mkWorld (B := B0) true (lit "/work/input_pdfs")
          [mkPdf (lit "list") [mkPage None (Some (lit "2 EA x close Valve"))]]
          false None complete_writer.

(** The size one half inch, written with the inch sign. *)
Definition half_inch : str := lit "1/2" ++ [34%N].

Definition ball_valve_table : table_grid :=
  [ [Some (lit "Quantity"); Some (lit "Units"); Some (lit "Size");
     Some (lit "Description")];
    [Some (lit "3"); Some (lit "EA"); Some half_inch; Some (lit "Ball Valve")] ].

(** Two documents, each with the one table row of the specification's
    end-to-end example. *)
Definition two_documents_world : @World B0 :=
  mkWorld (B := B0) true (lit "/work/input_pdfs")
          [mkPdf (lit "docA") [mkPage (Some ball_valve_table) None];
           mkPdf (lit "docB") [mkPage (Some ball_valve_table) None]]
          false None complete_writer.

End MoreExamples.

(** ** Vocabulary of the further properties *)

(** The fraction glyphs of a size replaced by their decimal text. *)
Definition replace_glyphs (size : str) : str :=
  replace 190%N (lit ".75")
    (replace 189%N (lit ".5") (replace 188%N (lit ".25") size)).

Section MoreVocabulary.

Context {B : PyBuiltins}.

(** [i] is the leftmost column whose header contains [name]. *)
Definition first_col (header : list str) (name : str) (i : nat) : Prop :=
  i < length header
  /\ contains name (nth i header []) = true
  /\ forall j, j < i -> contains name (nth j header []) = false.

(** A string [normalize_text] leaves as it is. *)
Definition normalized (s : str) : Prop := normalize_text (Some s) = s.

(** A raw record whose key is the key of its own fields. *)
Definition key_consistent (r : Row) : Prop :=
  item_key r = make_item_key (size r) (description r) (units r).

(** The same for a master record. *)
Definition master_key_consistent (m : MasterRow) : Prop :=
  m_item_key m = make_item_key (m_size m) (m_description m) (m_units m).

(** The text the coordinator hands to the text extractor: [text or ""]. *)
Definition page_text_or_empty (page : Page) : str :=
  match extract_text page with
  | Some t => t
  | None => []
  end.

End MoreVocabulary.

Section TableVocabulary.

Context {B : PyBuiltins}.

(** The cell of a data row in column [i], normalised; an absent cell
    reads as the empty string. *)
Definition table_cell (cells : list (option str)) (i : nat) : str :=
  normalize_text (nth i cells None).

(** All four columns are found in the header. *)
Definition columns_resolved (header : list str) : Prop :=
  exists iq iu isz id,
    find_col header (lit "quantity") = Some iq
    /\ find_col header (lit "units") = Some iu
    /\ find_col header (lit "size") = Some isz
    /\ find_col header (lit "description") = Some id.

(** What every raw record satisfies: its source, non-empty units and
    description, fields in normalised form, and the key of its own
    fields. *)
Definition record_ok (source_name : str) (r : Row) : Prop :=
  source r = source_name
  /\ units r <> [] /\ description r <> []
  /\ normalized (units r) /\ normalized (size r) /\ normalized (description r)
  /\ key_consistent r.

(** A record of the text extractor has, besides, units that are EA or LF
    in upper case. *)
Definition text_record_ok (source_name : str) (r : Row) : Prop :=
  record_ok source_name r
  /\ in_set (upper (units r)) [lit "EA"; lit "LF"] = true.

End TableVocabulary.

(** A size [size_to_float] can read: empty, or with a token before its
    first [x]. *)
Definition size_readable (size : str) : Prop :=
  size = [] \/ split (before_first_x size) <> [].

Module RunExamples.

Import Examples.

(** A size written with the one-half glyph and a dimension suffix. *)
Definition glyph_size : str := lit "1" ++ [189%N] ++ lit " x close".

End RunExamples.

Section RunVocabulary.

Context {B : PyBuiltins}.

(** The run reaches the workbook writer: the input folder exists, some
    record was extracted and every size can be read. *)
Definition reaches_writer (w : World) (rows : list Row) : Prop :=
  input_dir_exists w = true
  /\ rows <> []
  /\ Forall (fun r => size_readable (size r)) rows.

(** The ways a run of [main] can go, with the world it leaves: the two
    start-up errors, no record at all, a size that cannot be read, or the
    writer called on the sorted master list and the raw records. *)
Inductive main_outcome (w : World) (rows : list Row) : World * result unit -> Prop :=
| MissingFolder :
    input_dir_exists w = false ->
    main_outcome w rows
      (w, Raise (FileNotFoundError (lit "Missing folder: " ++ input_dir_resolved w)))
| NoPdfs :
    input_dir_exists w = true -> input_pdfs w = [] ->
    main_outcome w rows
      (mkdir_output w, Raise (FileNotFoundError (lit "No PDFs found.")))
| NoRows :
    input_dir_exists w = true -> input_pdfs w <> [] -> rows = [] ->
    main_outcome w rows
      (mkdir_output w, Raise (RuntimeError (lit "No rows extracted.")))
| UnreadableSize :
    input_dir_exists w = true -> rows <> [] ->
    ~ Forall (fun r => size_readable (size r)) rows ->
    main_outcome w rows (mkdir_output w, Raise IndexError)
| WriterCalled (master : list MasterRow) :
    reaches_writer w rows ->
    sorted_master (groupby_sum rows) = Ok master ->
    main_outcome w rows (write_output (mkdir_output w) master rows).

(** The record comes from one of the documents. *)
Definition record_of (pdfs : list PdfFile) (r : Row) : Prop :=
  exists pdf, In pdf pdfs /\ record_ok (stem pdf) r.

End RunVocabulary.

Section OrderVocabulary.

Context {B : PyBuiltins}.

(** The records a stitched line contributes: one or none. *)
Definition text_records (source_name : str) (line : str) : list Row :=
  match text_row source_name line with
  | Ok (Some r) => [r]
  | _ => []
  end.

(** The records a data row contributes: one or none. *)
Definition table_records (source_name : str) (iq iu isz id : nat)
    (cells : list (option str)) : list Row :=
  match table_row source_name iq iu isz id cells with
  | Ok (Some r) => [r]
  | _ => []
  end.

(** The quantities of the group [k], in row order. *)
Definition group_quantities_of (k : group_key_t) (rows : list Row) : list float :=
  map quantity (filter (in_group k) rows).

End OrderVocabulary.

(** ** Facts about the string operations *)

Section StringFacts.

Lemma split_cons (c : char) (s : str) :
  split (c :: s) =
  if isspace c then split s
  else if starts_space s then [c] :: split s
       else match split s with
            | w :: ws => (c :: w) :: ws
            | [] => [[c]]
            end.
Proof.
  destruct s as [|d s]; simpl; destruct (isspace c); reflexivity.
Qed.

Lemma split_all_space (s : str) :
  forallb isspace s = true -> split s = [].
Proof.
  induction s as [|c s IH]; intros H; [reflexivity|].
  simpl in H. apply andb_true_iff in H as [Hc Hs].
  rewrite split_cons, Hc. auto.
Qed.

Lemma split_nonspace_head (s : str) :
  starts_space s = false -> split s <> [].
Proof.
  destruct s as [|c s]; simpl; [discriminate|].
  intros Hc. rewrite Hc. destruct s as [|d s]; [discriminate|].
  destruct (isspace d); [discriminate|].
  destruct (split (d :: s)); discriminate.
Qed.

Lemma split_words (s : str) : Forall word (split s).
Proof.
  induction s as [|c s IH]; [constructor|].
  rewrite split_cons.
  destruct (isspace c) eqn:Hc; [exact IH|].
  assert (Hw : word [c]).
  { split; [discriminate|]. simpl. rewrite Hc. reflexivity. }
  destruct (starts_space s); [constructor; assumption|].
  destruct (split s) as [|w ws]; [constructor; [assumption|constructor]|].
  inversion IH as [|? ? [Hne Hall] Hws]; subst.
  constructor; [|assumption].
  split; [discriminate|]. simpl. rewrite Hc, Hall. reflexivity.
Qed.

Lemma split_word_app (w r : str) :
  word w -> starts_space r = true -> split (w ++ r) = w :: split r.
Proof.
  intros [Hne Hall] Hr. induction w as [|c w IH]; [congruence|].
  simpl in Hall. apply andb_true_iff in Hall as [Hc Hw].
  apply negb_true_iff in Hc.
  simpl app. rewrite split_cons, Hc.
  destruct w as [|c' w].
  - simpl. rewrite Hr. reflexivity.
  - assert (Hs : starts_space ((c' :: w) ++ r) = false).
    { simpl. simpl in Hw. apply andb_true_iff in Hw as [Hc' _].
      apply negb_true_iff in Hc'. exact Hc'. }
    rewrite Hs, IH; [reflexivity|discriminate|assumption].
Qed.

Lemma split_join (ws : list str) :
  Forall word ws -> split (join [SPACE] ws) = ws.
Proof.
  induction 1 as [|w ws Hw Hws IH]; [reflexivity|].
  destruct ws as [|w' ws].
  - simpl. rewrite <- (app_nil_r w) at 1.
    rewrite split_word_app by (assumption || reflexivity). reflexivity.
  - change (join [SPACE] (w :: w' :: ws))
      with (w ++ SPACE :: join [SPACE] (w' :: ws)).
    rewrite split_word_app by (assumption || reflexivity).
    rewrite split_cons. change (isspace SPACE) with true. simpl.
    f_equal. exact IH.
Qed.

Lemma split_lstrip (s : str) : split (lstrip s) = split s.
Proof.
  induction s as [|c s IH]; [reflexivity|].
  simpl lstrip. destruct (isspace c) eqn:Hc; [|reflexivity].
  rewrite IH, split_cons, Hc. reflexivity.
Qed.

Lemma rstrip_nil (s : str) : rstrip s = [] -> forallb isspace s = true.
Proof.
  induction s as [|c s IH]; [reflexivity|].
  simpl. destruct (rstrip s) as [|r rs]; [|discriminate].
  destruct (isspace c); [auto|discriminate].
Qed.

Lemma rstrip_starts_space (s : str) :
  rstrip s <> [] -> starts_space (rstrip s) = starts_space s.
Proof.
  destruct s as [|c s]; [reflexivity|].
  simpl. destruct (rstrip s); [destruct (isspace c) eqn:Hc|]; simpl; congruence.
Qed.

Lemma split_rstrip (s : str) : split (rstrip s) = split s.
Proof.
  induction s as [|c s IH]; [reflexivity|].
  simpl rstrip. destruct (rstrip s) as [|r rs] eqn:Hr.
  - pose proof (rstrip_nil s Hr) as Hall.
    rewrite split_cons, (split_all_space s Hall).
    destruct (isspace c) eqn:Hc; [reflexivity|].
    simpl. rewrite Hc.
    destruct s as [|d s]; [reflexivity|].
    simpl in Hall. apply andb_true_iff in Hall as [Hd _].
    simpl. rewrite Hd. reflexivity.
  - rewrite (split_cons c (r :: rs)), (split_cons c s), IH.
    rewrite <- (rstrip_starts_space s) by congruence.
    rewrite Hr. reflexivity.
Qed.

Lemma split_strip (s : str) : split (strip s) = split s.
Proof.
  unfold strip. rewrite split_rstrip. apply split_lstrip.
Qed.

Lemma replace_cons (old : char) (new : str) (c : char) (s : str) :
  replace old new (c :: s) =
  (if char_eqb c old then new else [c]) ++ replace old new s.
Proof. reflexivity. Qed.

Lemma split_replace_space (old : char) (s : str) :
  isspace old = true -> split (replace old [SPACE] s) = split s.
Proof.
  intros Hold. induction s as [|c s IH]; [reflexivity|].
  rewrite replace_cons.
  assert (Hhead : starts_space (replace old [SPACE] s) = starts_space s).
  { destruct s as [|d s]; [reflexivity|].
    rewrite replace_cons. cbn [starts_space].
    destruct (char_eqb d old) eqn:Hd; [|reflexivity].
    apply N.eqb_eq in Hd. subst d. cbn [app starts_space].
    rewrite Hold. reflexivity. }
  destruct (char_eqb c old) eqn:Hc.
  - apply N.eqb_eq in Hc. subst c.
    simpl app. rewrite (split_cons SPACE), (split_cons old s), Hold.
    change (isspace SPACE) with true. exact IH.
  - simpl app. rewrite (split_cons c (replace _ _ _)), (split_cons c s), IH, Hhead.
    reflexivity.
Qed.

(** [normalize_text] returns the white-space-separated tokens of its
    argument joined by single spaces. *)
Lemma normalize_text_tokens (s : str) :
  normalize_text (Some s) = join [SPACE] (split s).
Proof.
  unfold normalize_text, NORMALIZE_SPACES.
  rewrite !split_replace_space by reflexivity.
  rewrite split_join by apply split_words.
  rewrite split_strip. reflexivity.
Qed.

End StringFacts.

(** C8. The text normaliser is idempotent: normalising the result of
    [normalize_text], for any string or for an absent one, gives that same
    result. *)
Theorem normalize_text_idempotent (s : option str) :
  normalize_text (Some (normalize_text s)) = normalize_text s.
Proof.
  destruct s as [s|]; [|reflexivity].
  rewrite !normalize_text_tokens.
  rewrite split_join by apply split_words.
  reflexivity.
Qed.

(** ** The extractors return *)

Section Extractors.

Context {B : PyBuiltins}.

Lemma str_eqb_eq (a b : str) : str_eqb a b = true <-> a = b.
Proof.
  revert b. induction a as [|x a IH]; intros [|y b]; simpl;
    try (split; (reflexivity || discriminate)).
  unfold char_eqb. rewrite andb_true_iff, N.eqb_eq, IH.
  split; [intros [-> ->]; reflexivity | intros H; inversion H; auto].
Qed.

Lemma in_set_In (x : str) (s : list str) : in_set x s = true <-> In x s.
Proof.
  unfold in_set. rewrite existsb_exists. split.
  - intros [y [Hy He]]. apply str_eqb_eq in He. subst. exact Hy.
  - intros H. exists x. split; [exact H | apply str_eqb_eq; reflexivity].
Qed.

Lemma index_lt (A : Type) (l : list A) (i : nat) :
  i < length l -> exists x, index l i = Ok x /\ nth_error l i = Some x.
Proof.
  intros H. unfold index.
  destruct (nth_error l i) as [x|] eqn:E; [eauto|].
  apply nth_error_None in E. lia.
Qed.

Lemma index_nth (l : list str) (i : nat) :
  i < length l -> index l i = Ok (nth i l []).
Proof.
  intros H. destruct (index_lt l H) as [x [E N]]. rewrite E.
  f_equal. symmetry. apply nth_error_nth. exact N.
Qed.

Lemma for_append_ok (A R : Type) (body : A -> result (option R)) (xs : list A) :
  (forall x, exists o, body x = Ok o) ->
  forall rows, exists out, for_append body xs rows = Ok out.
Proof.
  intros Hbody. induction xs as [|x xs IH]; intros rows; simpl; [eauto|].
  destruct (Hbody x) as [o ->]. simpl. apply IH.
Qed.

Lemma table_row_ok (source_name : str) (iq iu isz id : nat) (r : list (option str)) :
  exists o, table_row source_name iq iu isz id r = Ok o.
Proof.
  unfold table_row.
  destruct (is_nil r || _) eqn:G; [eauto|].
  apply orb_false_iff in G as [_ G]. apply Nat.ltb_ge in G.
  destruct (@index_lt _ r iq) as [cq [-> _]]; [lia|].
  destruct (@index_lt _ r iu) as [cu [-> _]]; [lia|].
  destruct (@index_lt _ r isz) as [cs [-> _]]; [lia|].
  destruct (@index_lt _ r id) as [cd [-> _]]; [lia|].
  simpl.
  destruct (is_empty _ || _ || _); [eauto|].
  destruct (float_of_str _); eauto.
Qed.

Lemma extract_rows_from_table_exit_ok (table : option table_grid) (source_name : str) :
  exists e rows, extract_rows_from_table_exit table source_name = Ok (e, rows).
Proof.
  unfold extract_rows_from_table_exit.
  destruct table as [t|]; [|eauto].
  destruct (is_nil t || _) eqn:G; [eauto|].
  destruct t as [|row0 t]; [discriminate|]. simpl.
  destruct (negb _); [eauto|].
  destruct (find_col _ (lit "quantity")) as [iq|]; [|eauto].
  destruct (find_col _ (lit "units")) as [iu|]; [|eauto].
  destruct (find_col _ (lit "size")) as [isz|]; [|eauto].
  destruct (find_col _ (lit "description")) as [id|]; [|eauto].
  destruct (for_append_ok (table_row source_name iq iu isz id) t
              (table_row_ok source_name iq iu isz id) []) as [out ->].
  simpl. eauto.
Qed.

(** The state of the stitching loop after the lines before [rest] have
    been visited: with enough iterations left, the loop returns what the
    recursion on [rest] gives. *)
Lemma stitch_loop_rec (fuel : nat) :
  forall (pre rest acc : list str),
    length rest <= fuel ->
    stitch_loop fuel (pre ++ rest) (length pre, acc) = Ok (acc ++ stitch_rec rest).
Proof.
  induction fuel as [|fuel IH]; intros pre rest acc Hlen.
  - destruct rest; [|simpl in Hlen; lia].
    simpl. rewrite app_nil_r, Nat.ltb_irrefl, app_nil_r. reflexivity.
  - destruct rest as [|l rest].
    { cbn [stitch_loop fst snd]. rewrite app_nil_r, Nat.ltb_irrefl.
      simpl. rewrite app_nil_r. reflexivity. }
    cbn [stitch_loop fst snd].
    replace (length pre <? length (pre ++ l :: rest)) with true
      by (symmetry; apply Nat.ltb_lt; rewrite length_app; simpl; lia).
    unfold stitch_step.
    assert (Hidx : index (pre ++ l :: rest) (length pre) = Ok l).
    { unfold index. rewrite nth_error_app2 by lia.
      rewrite Nat.sub_diag. reflexivity. }
    rewrite Hidx. cbn [bind].
    assert (Hnext : forall acc',
      stitch_loop fuel (pre ++ l :: rest) (length pre + 1, acc')
      = Ok (acc' ++ stitch_rec rest)).
    { intros acc'.
      replace (pre ++ l :: rest) with ((pre ++ [l]) ++ rest)
        by (rewrite <- app_assoc; reflexivity).
      replace (length pre + 1) with (length (pre ++ [l]))
        by (rewrite length_app; reflexivity).
      apply IH. simpl in Hlen. lia. }
    cbn [stitch_rec].
    destruct (is_empty (normalize_text (Some l))) eqn:Hcur.
    { cbn [bind]. apply Hnext. }
    set (cur := normalize_text (Some l)) in *.
    assert (Hkeep : stitch_loop fuel (pre ++ l :: rest)
                      (length pre + 1, acc ++ [cur])
                    = Ok (acc ++ cur :: stitch_rec rest)).
    { rewrite Hnext, <- app_assoc. reflexivity. }
    unfold is_wrapped_prefix.
    destruct (split cur) as [|q [|u [|x parts]]]; cbn [bind];
      try (destruct rest; cbn [stitch_rec andb]; exact Hkeep).
    unfold stitch_try.
    destruct (float_of_str q) as [f|];
      [|cbn [bind]; destruct rest; exact Hkeep].
    destruct (in_set (upper u) [lit "EA"; lit "LF"]);
      [|cbn [andb bind]; destruct rest; exact Hkeep].
    destruct rest as [|l2 rest].
    { replace (length pre + 1 <? length (pre ++ [l])) with false
        by (symmetry; apply Nat.ltb_ge; rewrite length_app; simpl; lia).
      cbn [andb bind]. exact Hkeep. }
    replace (length pre + 1 <? length (pre ++ l :: l2 :: rest)) with true
      by (symmetry; apply Nat.ltb_lt; rewrite length_app; simpl; lia).
    cbn [andb].
    assert (Hidx2 : index (pre ++ l :: l2 :: rest) (length pre + 1) = Ok l2).
    { unfold index. rewrite nth_error_app2 by lia.
      replace (length pre + 1 - length pre) with 1 by lia. reflexivity. }
    rewrite Hidx2. cbn [bind].
    destruct (is_empty (normalize_text (Some l2))); cbn [negb bind];
      [exact Hkeep|].
    replace (pre ++ l :: l2 :: rest) with ((pre ++ [l; l2]) ++ rest)
      by (rewrite <- app_assoc; reflexivity).
    replace (length pre + 2) with (length (pre ++ [l; l2]))
      by (rewrite length_app; reflexivity).
    rewrite IH by (simpl in Hlen; lia).
    rewrite <- app_assoc. reflexivity.
Qed.

Lemma stitch_wrapped_lines_rec (lines : list str) :
  stitch_wrapped_lines lines = Ok (stitch_rec lines).
Proof.
  unfold stitch_wrapped_lines.
  exact (@stitch_loop_rec (length lines) [] lines [] (le_n _)).
Qed.

Lemma text_row_ok (source_name line : str) :
  exists o, text_row source_name line = Ok o.
Proof.
  unfold text_row.
  destruct (is_empty _); [eauto|].
  destruct (startswith _ _ || _); [eauto|].
  destruct (length _ <? 4) eqn:G; [eauto|].
  apply Nat.ltb_ge in G.
  rewrite !index_nth by lia. cbn [bind].
  destruct (float_of_str _); [|eauto].
  destruct (negb _); [eauto|].
  destruct (find_desc_start_index _) as [[|k]|];
    destruct (is_empty _); eauto.
Qed.

Lemma extract_rows_from_text_ok (text : option str) (source_name : str) :
  exists rows, extract_rows_from_text text source_name = Ok rows.
Proof.
  unfold extract_rows_from_text.
  destruct text as [t|]; [|eauto].
  destruct (is_empty t); [eauto|].
  rewrite stitch_wrapped_lines_rec. cbn [bind].
  apply for_append_ok. apply text_row_ok.
Qed.

End Extractors.

(** C10. Neither page extractor raises: on every table grid (absent, too
    short, with short rows or absent cells) [extract_rows_from_table]
    returns a list of records, and on every text (absent or empty too)
    [extract_rows_from_text] returns one. *)
Theorem extractors_never_raise (B : PyBuiltins)
    (table : option table_grid) (text : option str) (source_name : str) :
  (exists rows, extract_rows_from_table table source_name = Ok rows)
  /\ (exists rows, extract_rows_from_text text source_name = Ok rows).
Proof.
  split.
  - unfold extract_rows_from_table.
    destruct (extract_rows_from_table_exit_ok table source_name) as [e [rows ->]].
    simpl. eauto.
  - apply extract_rows_from_text_ok.
Qed.

(** ** The header guard of the table extractor *)

Section HeaderGuard.

Context {B : PyBuiltins}.

Lemma header_guard_iff (row0 : list (option str)) :
  existsb (fun h => in_set h HEADER_HINTS) (table_header row0) = true
  <-> header_has_hint row0.
Proof.
  unfold header_has_hint, table_header. rewrite existsb_exists. split.
  - intros [h [Hin Hset]]. apply in_map_iff in Hin as [cell [<- Hcell]].
    exists cell. split; [exact Hcell | apply in_set_In; exact Hset].
  - intros [cell [Hcell Hset]]. exists (lower (normalize_text cell)). split.
    + apply in_map_iff. exists cell. auto.
    + apply in_set_In. exact Hset.
Qed.

End HeaderGuard.

(** C4 (as the code has it). For a table grid with at least two rows the
    extractor goes on to column resolution exactly when some header cell,
    normalised and lower-cased, IS one of the four hint tokens; otherwise it
    leaves through the header guard with no record. *)
Theorem header_hint_gate (B : PyBuiltins) (t : table_grid) (source_name : str) :
  2 <= length t ->
  exists e rows,
    extract_rows_from_table_exit (Some t) source_name = Ok (e, rows)
    /\ (e = ExitNoColumn \/ e = ExitRows <-> header_has_hint (hd [] t))
    /\ (~ header_has_hint (hd [] t) -> e = ExitNoHint /\ rows = []).
Proof.
  intros Hlen.
  destruct (extract_rows_from_table_exit_ok (Some t) source_name) as [e [rows E]].
  exists e, rows. split; [exact E|].
  destruct t as [|row0 [|row1 t]]; try (simpl in Hlen; lia).
  unfold extract_rows_from_table_exit in E.
  cbn [is_nil orb length Nat.ltb Nat.leb index nth_error bind hd] in E.
  pose proof (header_guard_iff row0) as G.
  destruct (existsb (fun h => in_set h HEADER_HINTS) (table_header row0)) eqn:X;
    cbn [negb] in E.
  - assert (Hh : header_has_hint row0) by (apply G; reflexivity).
    split; [|intros N; contradiction].
    split; [intros _; exact Hh|intros _].
    destruct (find_col _ (lit "quantity")); [|inversion E; auto].
    destruct (find_col _ (lit "units")); [|inversion E; auto].
    destruct (find_col _ (lit "size")); [|inversion E; auto].
    destruct (find_col _ (lit "description")); [|inversion E; auto].
    destruct (for_append _ _ _); inversion E; auto.
  - inversion E; subst. split.
    + split; [intros [H|H]; discriminate|].
      intros Hh. apply G in Hh. discriminate.
    + auto.
Qed.

(** The gate at a table with one exact header cell. *)
Lemma header_hint_gate_witness :
  2 <= length Examples.plain_table
  /\ exists e rows,
      extract_rows_from_table_exit (B := Examples.B0)
        (Some Examples.plain_table) (lit "doc") = Ok (e, rows)
      /\ (e = ExitNoColumn \/ e = ExitRows
          <-> header_has_hint (B := Examples.B0) (hd [] Examples.plain_table))
      /\ (~ header_has_hint (B := Examples.B0) (hd [] Examples.plain_table)
          -> e = ExitNoHint /\ rows = []).
Proof.
  split; [simpl; lia|].
  apply (@header_hint_gate Examples.B0 Examples.plain_table (lit "doc")).
  simpl; lia.
Defined.

(** C4 (as stated) fails: every header cell of this two-row table contains
    a hint token as a substring, one that column resolution would accept,
    yet the extractor leaves through the header guard with no record. *)
Lemma header_substring_is_rejected :
  2 <= length Examples.dotted_table
  /\ header_contains_hint (B := Examples.B0) (hd [] Examples.dotted_table) = true
  /\ extract_rows_from_table_exit (B := Examples.B0)
       (Some Examples.dotted_table) (lit "doc") = Ok (ExitNoHint, []).
Proof.
  split; [simpl; lia|]. split; vm_compute; reflexivity.
Qed.

(** ** Line stitching *)

Section Stitching.

Context {B : PyBuiltins}.

Lemma is_empty_nil (s : str) : is_empty s = true <-> s = [].
Proof. destruct s; simpl; split; congruence. Qed.

Lemma is_empty_false (s : str) : is_empty s = false <-> s <> [].
Proof. destruct s; simpl; split; congruence. Qed.

Lemma stitch_rec_blank (l : str) (rest : list str) :
  normalize_text (Some l) = [] -> stitch_rec (l :: rest) = stitch_rec rest.
Proof. intros H. cbn [stitch_rec]. rewrite H. reflexivity. Qed.

Lemma stitch_rec_join (l l2 : str) (rest : list str) :
  is_wrapped_prefix (normalize_text (Some l)) = true ->
  normalize_text (Some l2) <> [] ->
  stitch_rec (l :: l2 :: rest)
  = (normalize_text (Some l) ++ [SPACE] ++ normalize_text (Some l2))
      :: stitch_rec rest.
Proof.
  intros Hw Hn. cbn [stitch_rec].
  destruct (is_empty (normalize_text (Some l))) eqn:E.
  - apply is_empty_nil in E. rewrite E in Hw. discriminate.
  - apply is_empty_false in Hn. rewrite Hw, Hn. reflexivity.
Qed.

Lemma stitch_rec_keep (l : str) (rest : list str) :
  normalize_text (Some l) <> [] ->
  is_wrapped_prefix (normalize_text (Some l)) = false
  \/ rest = []
  \/ (exists l2 rest', rest = l2 :: rest' /\ normalize_text (Some l2) = []) ->
  stitch_rec (l :: rest) = normalize_text (Some l) :: stitch_rec rest.
Proof.
  intros Hn H. cbn [stitch_rec].
  apply is_empty_false in Hn. rewrite Hn.
  destruct rest as [|l2 rest']; [reflexivity|].
  destruct H as [H|[H|[x [y [H1 H2]]]]].
  - rewrite H. reflexivity.
  - discriminate.
  - inversion H1; subst. rewrite H2, andb_false_r. reflexivity.
Qed.

End Stitching.

(** C6 (as the code has it). The stitching walks the raw lines in order
    and always returns.  A line that is blank once normalised is skipped.
    A line with exactly two tokens, the first read by [float] and the
    second [EA] or [LF] in upper case, is joined by one space with the
    line right after it in the input when that line is not blank once
    normalised, and the walk goes on after both.  Any other line, and such
    a prefix followed by no line or by a blank one, is kept on its own in
    normalised form. *)
Theorem stitch_wrapped_lines_walk (B : PyBuiltins) :
  stitch_wrapped_lines [] = Ok []
  /\ (forall l rest,
        normalize_text (Some l) = [] ->
        stitch_wrapped_lines (l :: rest) = stitch_wrapped_lines rest)
  /\ (forall l l2 rest,
        is_wrapped_prefix (normalize_text (Some l)) = true ->
        normalize_text (Some l2) <> [] ->
        stitch_wrapped_lines (l :: l2 :: rest)
        = (out <- stitch_wrapped_lines rest ;;
           Ok ((normalize_text (Some l) ++ [SPACE] ++ normalize_text (Some l2))
                 :: out)))
  /\ (forall l rest,
        normalize_text (Some l) <> [] ->
        is_wrapped_prefix (normalize_text (Some l)) = false
        \/ rest = []
        \/ (exists l2 rest', rest = l2 :: rest' /\ normalize_text (Some l2) = []) ->
        stitch_wrapped_lines (l :: rest)
        = (out <- stitch_wrapped_lines rest ;; Ok (normalize_text (Some l) :: out)))
  /\ (forall lines, exists out, stitch_wrapped_lines lines = Ok out).
Proof.
  repeat split.
  - intros l rest H. rewrite !stitch_wrapped_lines_rec.
    f_equal. apply stitch_rec_blank. exact H.
  - intros l l2 rest Hw Hn. rewrite !stitch_wrapped_lines_rec. cbn [bind].
    f_equal. apply stitch_rec_join; assumption.
  - intros l rest Hn H. rewrite !stitch_wrapped_lines_rec. cbn [bind].
    f_equal. apply stitch_rec_keep; assumption.
  - intros lines. rewrite stitch_wrapped_lines_rec. eauto.
Qed.

(** The two examples of the specification, read off the walk: a wrapped
    prefix is joined with the line after it, and a prefix that ends the
    input is kept. *)
Lemma stitch_wrapped_lines_walk_witness :
  stitch_wrapped_lines (B := Examples.B0) Examples.wrapped_lines
    = Ok [lit "2 EA Valve 1/2in Bronze"]
  /\ stitch_wrapped_lines (B := Examples.B0) Examples.lone_prefix
     = Ok [lit "5 LF"].
Proof.
  destruct (stitch_wrapped_lines_walk Examples.B0) as [H0 [_ [Hjoin [Hkeep _]]]].
  split.
  - unfold Examples.wrapped_lines.
    rewrite Hjoin; [rewrite H0; reflexivity | reflexivity | discriminate].
  - unfold Examples.lone_prefix.
    rewrite Hkeep; [rewrite H0; reflexivity | discriminate | right; left; reflexivity].
Defined.

(** C6 (as stated) fails: with a blank line between a wrapped prefix and
    its description, dropping the blank lines first would join the two,
    while the code keeps both lines apart. *)
Lemma stitch_blank_line_between :
  stitch_wrapped_lines (B := Examples.B0) Examples.gapped_lines
    = Ok [lit "2 EA"; lit "Valve 1/2in Bronze"]
  /\ stitch_as_specified (B := Examples.B0) Examples.gapped_lines
     = [lit "2 EA Valve 1/2in Bronze"].
Proof.
  split; vm_compute; reflexivity.
Qed.

(** ** Size and description in the text extractor *)

Section TextRows.

Context {B : PyBuiltins}.

Lemma find_desc_start_from_none (tokens : list str) (i : nat) :
  (forall t, In t tokens -> is_desc_start t = false) ->
  find_desc_start_from tokens i = None.
Proof.
  revert i. induction tokens as [|t ts IH]; intros i H; [reflexivity|].
  cbn [find_desc_start_from]. rewrite (H t (or_introl eq_refl)).
  apply IH. intros t' Ht'. apply H. right. exact Ht'.
Qed.

Lemma find_desc_start_from_first (tokens : list str) :
  forall k i, first_desc_start tokens k ->
              find_desc_start_from tokens i = Some (i + k).
Proof.
  induction tokens as [|t ts IH]; intros k i [Hk [Hm Hfirst]].
  - simpl in Hk. lia.
  - destruct k as [|k].
    + cbn [nth] in Hm. cbn [find_desc_start_from].
      rewrite Hm, Nat.add_0_r. reflexivity.
    + pose proof (Hfirst 0 (Nat.lt_0_succ k)) as H0. cbn [nth] in H0.
      cbn [find_desc_start_from]. rewrite H0.
      rewrite (IH k (S i)); [f_equal; lia|].
      split; [simpl in Hk; lia|]. split; [exact Hm|].
      intros j Hj. apply (Hfirst (S j)). lia.
Qed.

Lemma word_join_nonempty (w : str) (ws : list str) :
  word w -> join [SPACE] (w :: ws) <> [].
Proof.
  intros [Hne _]. destruct w; [congruence|].
  destruct ws; simpl; discriminate.
Qed.

Lemma normalize_text_join (ws : list str) :
  Forall word ws -> normalize_text (Some (join [SPACE] ws)) = join [SPACE] ws.
Proof.
  intros H. rewrite normalize_text_tokens, split_join by exact H. reflexivity.
Qed.

Lemma Forall_skipn (A : Type) (P : A -> Prop) (n : nat) (l : list A) :
  Forall P l -> Forall P (skipn n l).
Proof.
  intros H. rewrite <- (firstn_skipn n l) in H.
  apply Forall_app in H. tauto.
Qed.

Lemma Forall_firstn (A : Type) (P : A -> Prop) (n : nat) (l : list A) :
  Forall P l -> Forall P (firstn n l).
Proof.
  intros H. rewrite <- (firstn_skipn n l) in H.
  apply Forall_app in H. tauto.
Qed.

Lemma for_append_In (A R : Type) (body : A -> result (option R)) (xs : list A) :
  forall rows out,
    for_append body xs rows = Ok out ->
    (forall r, In r rows -> In r out)
    /\ (forall x r, In x xs -> body x = Ok (Some r) -> In r out).
Proof.
  induction xs as [|x xs IH]; intros rows out E; simpl in E.
  - inversion E; subst. split; [auto|intros ? ? []].
  - destruct (body x) as [o| |] eqn:Hx; try discriminate.
    cbn [bind] in E. apply IH in E as [Hrows Hxs].
    split.
    + intros r Hr. apply Hrows. destruct o; [apply in_or_app; left|]; exact Hr.
    + intros y r [<-|Hy] Hb.
      * rewrite Hx in Hb. inversion Hb; subst.
        apply Hrows. apply in_or_app. right. left. reflexivity.
      * apply (Hxs y); assumption.
Qed.

(** The record the loop body emits for a line that passes the prefix
    checks, in terms of where the first marker stands. *)
Lemma text_row_fields (source_name line : str) :
  text_prefix_ok line = true ->
  exists r,
    text_row source_name line = Ok (Some r)
    /\ ((forall t, In t (text_remainder line) -> is_desc_start t = false)
        \/ first_desc_start (text_remainder line) 0 ->
        size r = [] /\ description r = join [SPACE] (text_remainder line))
    /\ (forall k, 0 < k -> first_desc_start (text_remainder line) k ->
        size r = join [SPACE] (firstn k (text_remainder line))
        /\ description r = join [SPACE] (skipn k (text_remainder line))).
Proof.
  unfold text_prefix_ok, text_remainder, text_row.
  set (nline := normalize_text (Some line)).
  set (parts := split nline).
  intros H.
  apply andb_true_iff in H as [H Hunit].
  apply andb_true_iff in H as [H Hqty].
  apply andb_true_iff in H as [H Hlen].
  apply andb_true_iff in H as [Hne Hnoise].
  apply negb_true_iff in Hne, Hnoise, Hlen.
  rewrite Hne, Hnoise, Hlen.
  apply Nat.ltb_ge in Hlen.
  rewrite !index_nth by lia. cbn [bind].
  destruct (float_of_str (nth 0 parts [])) as [qty|]; [|discriminate].
  rewrite Hunit. cbn [negb].
  assert (Hparts : Forall word parts) by apply split_words.
  set (remainder := skipn 2 parts).
  assert (Hrem : Forall word remainder) by (apply Forall_skipn; exact Hparts).
  assert (Hremlen : length remainder = length parts - 2)
    by apply length_skipn.
  assert (Hwhole : normalize_text (Some (join [SPACE] remainder))
                   = join [SPACE] remainder)
    by (apply normalize_text_join; exact Hrem).
  assert (Hwhole_ne : is_empty (join [SPACE] remainder) = false).
  { apply is_empty_false. destruct remainder as [|w ws]; [simpl in Hremlen; lia|].
    apply word_join_nonempty. inversion Hrem; assumption. }
  assert (Hnil : normalize_text (Some []) = []) by reflexivity.
  destruct (find_desc_start_index remainder) as [[|k]|] eqn:Hfind.
  - rewrite Hwhole, Hnil, Hwhole_ne. eexists. split; [reflexivity|].
    cbn [size description]. split; [auto|].
    intros k Hk Hfirst.
    unfold find_desc_start_index in Hfind.
    rewrite (find_desc_start_from_first 0 Hfirst) in Hfind.
    inversion Hfind. lia.
  - assert (Hsz : Forall word (firstn (S k) remainder))
      by (apply Forall_firstn; exact Hrem).
    assert (Hds : Forall word (skipn (S k) remainder))
      by (apply Forall_skipn; exact Hrem).
    rewrite !normalize_text_join by assumption.
    unfold find_desc_start_index in Hfind.
    assert (Hcase : forall j, first_desc_start remainder j -> j = S k).
    { intros j Hj. rewrite (find_desc_start_from_first 0 Hj) in Hfind.
      inversion Hfind. reflexivity. }
    assert (Hnone : ~ (forall t, In t remainder -> is_desc_start t = false)).
    { intros Hall. rewrite (find_desc_start_from_none _ 0 Hall) in Hfind.
      discriminate. }
    destruct (is_empty (join [SPACE] (skipn (S k) remainder))) eqn:Hd.
    + exfalso.
      destruct (Nat.lt_ge_cases (S k) (length remainder)) as [Hlt|Hge].
      * apply is_empty_nil in Hd.
        destruct (skipn (S k) remainder) as [|w ws] eqn:Hs.
        { pose proof (length_skipn (S k) remainder) as L.
          rewrite Hs in L. simpl in L. lia. }
        inversion Hds; subst. revert Hd. apply word_join_nonempty. assumption.
      * clear - Hfind Hge.
        assert (Hbound : forall toks i n,
                  find_desc_start_from toks i = Some n -> n < i + length toks).
        { induction toks as [|t ts IH]; intros i n E; simpl in E; [discriminate|].
          destruct (is_desc_start t); [inversion E; simpl; lia|].
          apply IH in E. simpl. lia. }
        apply Hbound in Hfind. simpl in Hfind. lia.
    + eexists. split; [reflexivity|]. cbn [size description]. split.
      * intros [Hall|H0]; [contradiction|]. apply Hcase in H0. discriminate.
      * intros j Hj Hfirst. apply Hcase in Hfirst. subst j. auto.
  - rewrite Hwhole, Hnil, Hwhole_ne. eexists. split; [reflexivity|].
    cbn [size description]. split; [auto|].
    intros k Hk Hfirst.
    unfold find_desc_start_index in Hfind.
    rewrite (find_desc_start_from_first 0 Hfirst) in Hfind. discriminate.
Qed.

End TextRows.

(** C7. For every stitched line of a page text that passes the prefix
    checks, a record is emitted.  When no token after quantity and unit
    matches a description-start marker, or the first match is the first
    of those tokens, its size is empty and its description is all of them
    joined by single spaces; when the first match stands at a later
    position, its size is the tokens before that position and its
    description the tokens from it on, each joined by single spaces. *)
Theorem text_size_description_split (B : PyBuiltins)
    (text source_name : str) (lines : list str) (line : str) :
  text <> [] ->
  stitch_wrapped_lines (splitlines text) = Ok lines ->
  In line lines ->
  text_prefix_ok line = true ->
  exists rows r,
    extract_rows_from_text (Some text) source_name = Ok rows
    /\ In r rows
    /\ text_row source_name line = Ok (Some r)
    /\ ((forall t, In t (text_remainder line) -> is_desc_start t = false)
        \/ first_desc_start (text_remainder line) 0 ->
        size r = [] /\ description r = join [SPACE] (text_remainder line))
    /\ (forall k, 0 < k -> first_desc_start (text_remainder line) k ->
        size r = join [SPACE] (firstn k (text_remainder line))
        /\ description r = join [SPACE] (skipn k (text_remainder line))).
Proof.
  intros Htext Hlines Hin Hok.
  destruct (text_row_fields source_name line Hok) as [r [Hrow [Hwhole Hsplit]]].
  destruct (extract_rows_from_text_ok (Some text) source_name) as [rows Hrows].
  exists rows, r. split; [exact Hrows|]. split; [|auto].
  unfold extract_rows_from_text in Hrows.
  apply is_empty_false in Htext. rewrite Htext, Hlines in Hrows.
  cbn [bind] in Hrows.
  apply for_append_In in Hrows as [_ Hall].
  apply (Hall line); assumption.
Qed.

(** The record of a line with several leading size tokens. *)
Lemma text_size_description_split_witness :
  exists rows (r : @Row Examples.B0),
    extract_rows_from_text
      (Some (lit "2 EA 1/2 in Ball Valve Bronze")) (lit "doc") = Ok rows
    /\ In r rows
    /\ size r = lit "1/2 in Ball"
    /\ description r = lit "Valve Bronze".
Proof.
  destruct (@text_size_description_split Examples.B0
              (lit "2 EA 1/2 in Ball Valve Bronze") (lit "doc")
              [lit "2 EA 1/2 in Ball Valve Bronze"]
              (lit "2 EA 1/2 in Ball Valve Bronze"))
    as [rows [r [Hrows [Hin [_ [_ Hsplit]]]]]].
  - discriminate.
  - vm_compute. reflexivity.
  - left. reflexivity.
  - vm_compute. reflexivity.
  - exists rows, r. split; [exact Hrows|]. split; [exact Hin|].
    apply (Hsplit 3); [lia|].
    split; [vm_compute; lia|]. split; [vm_compute; reflexivity|].
    intros j Hj.
    destruct j as [|[|[|j]]]; [vm_compute; reflexivity ..|lia].
Defined.

(** ** The item key *)

Section ItemKey.

Context {B : PyBuiltins}.

Lemma text_row_item_key (source_name line : str) (r : Row) :
  text_row source_name line = Ok (Some r) ->
  item_key r = make_item_key (size r) (description r) (units r).
Proof.
  unfold text_row.
  destruct (is_empty _); [discriminate|].
  destruct (startswith _ _ || _); [discriminate|].
  destruct (length _ <? 4); [discriminate|].
  destruct (index _ 0); try discriminate. cbn [bind].
  destruct (index _ 1); try discriminate. cbn [bind].
  destruct (float_of_str _); [|discriminate].
  destruct (negb _); [discriminate|].
  destruct (find_desc_start_index _) as [[|k]|];
    destruct (is_empty _); try discriminate;
    intros E; inversion E; reflexivity.
Qed.

Lemma table_row_item_key (source_name : str) (iq iu isz id : nat)
    (cells : list (option str)) (r : Row) :
  table_row source_name iq iu isz id cells = Ok (Some r) ->
  item_key r = make_item_key (size r) (description r) (units r).
Proof.
  unfold table_row.
  destruct (is_nil cells || _); [discriminate|].
  destruct (index cells iq); try discriminate. cbn [bind].
  destruct (index cells iu); try discriminate. cbn [bind].
  destruct (index cells isz); try discriminate. cbn [bind].
  destruct (index cells id); try discriminate. cbn [bind].
  destruct (is_empty _ || _ || _); [discriminate|].
  destruct (float_of_str _); [|discriminate].
  intros E; inversion E; reflexivity.
Qed.

Lemma lower_normalize_text (L : CaseByToken B) (s : str) :
  lower (normalize_text (Some s)) = join [SPACE] (map lower (split s)).
Proof.
  rewrite normalize_text_tokens. apply lower_join. apply split_words.
Qed.

End ItemKey.

(** C2. Two triples whose components have the same tokens (they differ
    only in leading, trailing or internal white space) get the same key;
    when lower-casing works token by token, so do two triples whose
    components have the same tokens up to letter case (they differ only
    in case and white space); and the key of every record either
    extractor emits is [make_item_key] of the record's own size,
    description and units, whatever the source document. *)
Theorem make_item_key_deterministic (B : PyBuiltins) :
  (forall size description units size' description' units',
      split size = split size' ->
      split description = split description' ->
      split units = split units' ->
      make_item_key size description units
      = make_item_key size' description' units')
  /\ (CaseByToken B ->
      forall size description units size' description' units',
        same_tokens size size' ->
        same_tokens description description' ->
        same_tokens units units' ->
        make_item_key size description units
        = make_item_key size' description' units')
  /\ (forall source_name line r,
        text_row source_name line = Ok (Some r) ->
        item_key r = make_item_key (size r) (description r) (units r))
  /\ (forall source_name iq iu isz id cells r,
        table_row source_name iq iu isz id cells = Ok (Some r) ->
        item_key r = make_item_key (size r) (description r) (units r)).
Proof.
  split; [|split; [|split]].
  - intros s d u s' d' u' Hs Hd Hu. unfold make_item_key.
    rewrite !normalize_text_tokens, Hs, Hd, Hu. reflexivity.
  - intros L s d u s' d' u' Hs Hd Hu. unfold make_item_key, same_tokens in *.
    rewrite !lower_normalize_text by exact L.
    rewrite Hs, Hd, Hu. reflexivity.
  - intros. eapply text_row_item_key; eassumption.
  - intros. eapply table_row_item_key; eassumption.
Qed.

Lemma map_join (f : char -> char) (sep : str) (ws : list str) :
  map f (join sep ws) = join (map f sep) (map (map f) ws).
Proof.
  induction ws as [|w ws IH]; [reflexivity|].
  destruct ws as [|w' ws]; [reflexivity|].
  change (join sep (w :: w' :: ws)) with (w ++ sep ++ join sep (w' :: ws)).
  rewrite !map_app, IH. reflexivity.
Qed.

(** The example instance lower-cases token by token. *)
Lemma decimal_case_by_token : CaseByToken Decimal.builtins.
Proof.
  constructor. intros ws _. simpl. apply (map_join Decimal.lower_char).
Qed.

(** Two spellings of one triple, differing in case and spacing. *)
Lemma make_item_key_deterministic_witness :
  same_tokens (B := Examples.B0) (lit " 1/2  IN ") (lit "1/2 in")
  /\ same_tokens (B := Examples.B0) (lit "Ball   VALVE") (lit "ball valve")
  /\ same_tokens (B := Examples.B0) (lit "ea") (lit " EA ")
  /\ make_item_key (B := Examples.B0)
       (lit " 1/2  IN ") (lit "Ball   VALVE") (lit "ea")
     = make_item_key (B := Examples.B0)
         (lit "1/2 in") (lit "ball valve") (lit " EA ").
Proof.
  assert (Hs : same_tokens (B := Examples.B0) (lit " 1/2  IN ") (lit "1/2 in"))
    by (vm_compute; reflexivity).
  assert (Hd : same_tokens (B := Examples.B0) (lit "Ball   VALVE") (lit "ball valve"))
    by (vm_compute; reflexivity).
  assert (Hu : same_tokens (B := Examples.B0) (lit "ea") (lit " EA "))
    by (vm_compute; reflexivity).
  split; [exact Hs|]. split; [exact Hd|]. split; [exact Hu|].
  exact (proj1 (proj2 (make_item_key_deterministic Examples.B0))
               decimal_case_by_token _ _ _ _ _ _ Hs Hd Hu).
Defined.

Lemma split_on_head (sep : char) (s : str) :
  exists w ws, split_on sep s = w :: ws.
Proof.
  destruct s as [|c s]; simpl; [eauto|].
  destruct (char_eqb c sep); [eauto|].
  destruct (split_on sep s); eauto.
Qed.

(** C5 (the code where the claim fails). A size that begins with the
    dimension separator has an empty part before its first [x], hence no
    token to take, and [size_to_float] raises [IndexError] instead of
    returning [0.0].  In general, on a non-empty size the function raises
    [IndexError] exactly when the part before the first [x] has no token,
    and returns a float otherwise. *)
Theorem size_to_float_raises_on_leading_x (B : PyBuiltins) :
  size_to_float (Some (lit "x close")) = Raise IndexError
  /\ (forall size : str,
        size <> [] ->
        (split (before_first_x size) = []
         <-> size_to_float (Some size) = Raise IndexError)
        /\ (split (before_first_x size) <> []
            <-> exists f, size_to_float (Some size) = Ok f))
  /\ (forall f, size_to_float None = Ok f <-> f = fzero)
  /\ size_to_float (Some []) = Ok fzero.
Proof.
  split; [reflexivity|]. split; [|split; [|reflexivity]].
  - intros size Hne. unfold size_to_float, before_first_x.
    apply is_empty_false in Hne. rewrite Hne.
    destruct (split_on_head 120%N
                (replace 190%N (lit ".75")
                   (replace 189%N (lit ".5") (replace 188%N (lit ".25") size))))
      as [w [ws ->]].
    cbn [index nth_error bind hd]. rewrite split_strip.
    destruct (split w) as [|t ts].
    + cbn [index nth_error bind]. split; split; try congruence; auto.
      intros [f Hf]. discriminate.
    + cbn [index nth_error bind].
      destruct (float_of_str t) as [f|]; split; split;
        try discriminate; eauto.
  - intros f. cbn [size_to_float]. split; [intros H; inversion H|intros ->];
      reflexivity.
Qed.

(** ** Comparisons *)

Section Comparisons.

Lemma compare_order_ext (A : Type) (cmp cmp' : A -> A -> comparison) :
  (forall a b, cmp a b = cmp' a b) -> compare_order cmp' -> compare_order cmp.
Proof.
  intros E [H1 H2 H3 H4]. constructor; intros *; rewrite ?E; auto.
  intros Hab Hbc. eapply H4; eassumption.
Qed.

Lemma lex_compare_order (A C : Type) (ca : A -> A -> comparison)
    (cc : C -> C -> comparison) :
  compare_order ca -> compare_order cc -> compare_order (lex_compare ca cc).
Proof.
  intros [Ha1 Ha2 Ha3 Ha4] [Hc1 Hc2 Hc3 Hc4].
  constructor; unfold lex_compare.
  - intros [a c] [a' c']; simpl.
    destruct (ca a a') eqn:E; try discriminate.
    intros E'. apply Ha1 in E. apply Hc1 in E'. congruence.
  - intros [a c]; simpl. rewrite Ha2. apply Hc2.
  - intros [a c] [a' c']; simpl.
    rewrite (Ha3 a a'). destruct (ca a a'); simpl; auto.
  - intros [a1 c1] [a2 c2] [a3 c3]; simpl.
    destruct (ca a1 a2) eqn:E12; try discriminate;
      destruct (ca a2 a3) eqn:E23; try discriminate; intros H12 H23.
    + apply Ha1 in E12, E23. subst. rewrite Ha2. eapply Hc4; eassumption.
    + apply Ha1 in E12. subst. rewrite E23. reflexivity.
    + apply Ha1 in E23. subst. rewrite E12. reflexivity.
    + rewrite (Ha4 _ _ _ E12 E23). reflexivity.
Qed.

Lemma N_compare_order : compare_order N.compare.
Proof.
  constructor.
  - intros a b. apply N.compare_eq.
  - apply N.compare_refl.
  - intros a b. apply N.compare_antisym.
  - intros a b c. rewrite !N.compare_lt_iff. apply N.lt_trans.
Qed.

Lemma str_compare_order : compare_order str_compare.
Proof.
  destruct N_compare_order as [N1 N2 N3 N4]. constructor.
  - induction a as [|x a IH]; intros [|y b]; simpl; try discriminate; auto.
    destruct (N.compare x y) eqn:E; try discriminate.
    intros H. apply N1 in E. apply IH in H. congruence.
  - induction a as [|x a IH]; simpl; [reflexivity|]. rewrite N2. exact IH.
  - induction a as [|x a IH]; intros [|y b]; simpl; auto.
    rewrite (N3 x y). destruct (N.compare x y); simpl; auto.
  - induction a as [|x a IH]; intros [|y b] [|z c]; simpl;
      try discriminate; auto.
    destruct (N.compare x y) eqn:E12; try discriminate;
      destruct (N.compare y z) eqn:E23; try discriminate; intros H12 H23.
    + apply N1 in E12, E23. subst. rewrite N2. eapply IH; eassumption.
    + apply N1 in E12. subst. rewrite E23. reflexivity.
    + apply N1 in E23. subst. rewrite E12. reflexivity.
    + rewrite (N4 _ _ _ E12 E23). reflexivity.
Qed.

Lemma key_compare_order : compare_order key_compare.
Proof.
  apply (@compare_order_ext _ _
           (lex_compare (lex_compare (lex_compare str_compare str_compare)
                                     str_compare) str_compare)).
  - intros [[[a1 a2] a3] a4] [[[b1 b2] b3] b4]. unfold lex_compare; simpl.
    destruct (str_compare a1 b1), (str_compare a2 b2), (str_compare a3 b3);
      reflexivity.
  - repeat apply lex_compare_order; apply str_compare_order.
Qed.

Lemma key_compare_eq_iff (a b : group_key_t) : key_compare a b = Eq <-> a = b.
Proof.
  split; [apply key_compare_order|intros ->; apply key_compare_order].
Qed.

Lemma key_lt_irrefl (a : group_key_t) : ~ key_lt a a.
Proof.
  unfold key_lt. rewrite (cmp_refl key_compare_order). discriminate.
Qed.

Lemma key_lt_trans (a b c : group_key_t) : key_lt a b -> key_lt b c -> key_lt a c.
Proof. apply key_compare_order. Qed.

Lemma key_gt_lt (a b : group_key_t) : key_compare a b = Gt -> key_lt b a.
Proof.
  unfold key_lt. rewrite (cmp_antisym key_compare_order a b).
  intros ->. reflexivity.
Qed.

End Comparisons.

(** ** Group keys *)

Section GroupKeys.

Lemma insert_key_In (k x : group_key_t) (ks : list group_key_t) :
  In x (insert_key k ks) <-> x = k \/ In x ks.
Proof.
  induction ks as [|k' ks IH]; simpl; [intuition congruence|].
  destruct (key_compare k k') eqn:E; simpl.
  - apply key_compare_eq_iff in E. subst. intuition congruence.
  - intuition congruence.
  - rewrite IH. intuition congruence.
Qed.

Lemma insert_key_sorted (k : group_key_t) (ks : list group_key_t) :
  StronglySorted key_lt ks -> StronglySorted key_lt (insert_key k ks).
Proof.
  induction 1 as [|k' ks Hs IH Hall]; simpl; [repeat constructor|].
  destruct (key_compare k k') eqn:E.
  - constructor; assumption.
  - constructor; [constructor; assumption|].
    constructor; [exact E|].
    eapply Forall_impl; [|exact Hall]. intros x Hx.
    eapply key_lt_trans; eassumption.
  - constructor; [exact IH|].
    apply Forall_forall. intros x Hx. apply insert_key_In in Hx as [->|Hx].
    + apply key_gt_lt. exact E.
    + rewrite Forall_forall in Hall. auto.
Qed.

Lemma keys_sorted (ks : list group_key_t) :
  StronglySorted key_lt (fold_right insert_key [] ks).
Proof.
  induction ks; simpl; [constructor|apply insert_key_sorted; assumption].
Qed.

Lemma keys_In (ks : list group_key_t) (x : group_key_t) :
  In x (fold_right insert_key [] ks) <-> In x ks.
Proof.
  induction ks as [|k ks IH]; simpl; [tauto|].
  rewrite insert_key_In, IH. intuition congruence.
Qed.

Lemma sorted_NoDup (l : list group_key_t) : StronglySorted key_lt l -> NoDup l.
Proof.
  induction 1 as [|k l Hs IH Hall]; constructor; [|exact IH].
  intros Hin. rewrite Forall_forall in Hall.
  exact (key_lt_irrefl (Hall _ Hin)).
Qed.

Lemma sorted_same_elements (l1 : list group_key_t) :
  forall l2,
    StronglySorted key_lt l1 -> StronglySorted key_lt l2 ->
    (forall x, In x l1 <-> In x l2) -> l1 = l2.
Proof.
  induction l1 as [|a l1 IH]; intros [|b l2] S1 S2 Hsame.
  - reflexivity.
  - destruct (proj2 (Hsame b) (or_introl eq_refl)).
  - destruct (proj1 (Hsame a) (or_introl eq_refl)).
  - inversion S1 as [|? ? S1' H1]; inversion S2 as [|? ? S2' H2]; subst.
    rewrite Forall_forall in H1, H2.
    assert (a = b) as ->.
    { destruct (proj1 (Hsame a) (or_introl eq_refl)) as [E|Ha]; [auto|].
      destruct (proj2 (Hsame b) (or_introl eq_refl)) as [E|Hb]; [auto|].
      exfalso. apply (key_lt_irrefl (a := a)).
      eapply key_lt_trans; [apply H1; exact Hb|apply H2; exact Ha]. }
    f_equal. apply IH; try assumption.
    intros x. split; intros Hx.
    + destruct (proj1 (Hsame x) (or_intror Hx)) as [E|Hx']; [|exact Hx'].
      subst x. exfalso. exact (key_lt_irrefl (H1 _ Hx)).
    + destruct (proj2 (Hsame x) (or_intror Hx)) as [E|Hx']; [|exact Hx'].
      subst x. exfalso. exact (key_lt_irrefl (H2 _ Hx)).
Qed.

End GroupKeys.

(** ** Aggregation *)

Section Aggregation.

Context {B : PyBuiltins}.

Lemma in_group_iff (k : group_key_t) (r : Row) :
  in_group k r = true <-> group_key r = k.
Proof.
  unfold in_group. rewrite <- key_compare_eq_iff.
  destruct (key_compare (group_key r) k); split; congruence.
Qed.

Lemma group_keys_In (rows : list Row) (k : group_key_t) :
  In k (group_keys rows) <-> exists r, In r rows /\ group_key r = k.
Proof.
  unfold group_keys. rewrite keys_In, in_map_iff.
  split; intros [r [H1 H2]]; exists r; auto.
Qed.

Lemma master_key_groupby (rows : list Row) :
  map master_key (groupby_sum rows) = group_keys rows.
Proof.
  unfold groupby_sum. rewrite map_map.
  rewrite <- (map_id (group_keys rows)) at 2.
  apply map_ext. intros [[[ik u] s] d]. reflexivity.
Qed.

Lemma groupby_sum_In (rows : list Row) (m : MasterRow) :
  In m (groupby_sum rows) ->
  In (master_key m) (group_keys rows)
  /\ m_quantity m = group_sum (master_key m) rows.
Proof.
  unfold groupby_sum. rewrite in_map_iff.
  intros [[[[ik u] s] d] [<- Hk]]. split; [exact Hk|reflexivity].
Qed.

Lemma group_keys_quantities (rows : list Row) (k : group_key_t) :
  In k (group_keys rows) <-> group_quantities_of k rows <> [].
Proof.
  rewrite group_keys_In. unfold group_quantities_of. split.
  - intros [r [Hr Hk]] E. apply map_eq_nil in E.
    assert (Hin : In r (filter (in_group k) rows)).
    { apply filter_In. split; [exact Hr|]. apply in_group_iff. exact Hk. }
    rewrite E in Hin. destruct Hin.
  - intros H. destruct (filter (in_group k) rows) as [|r l] eqn:E;
      [exfalso; apply H; reflexivity|].
    assert (Hin : In r (filter (in_group k) rows)) by (rewrite E; left; reflexivity).
    apply filter_In in Hin as [Hr Hk]. apply in_group_iff in Hk. eauto.
Qed.

Lemma groupby_sum_same_groups (rows rows' : list Row) :
  (forall k, group_quantities_of k rows' = group_quantities_of k rows) ->
  groupby_sum rows' = groupby_sum rows.
Proof.
  intros H. unfold groupby_sum.
  assert (Hk : group_keys rows' = group_keys rows).
  { unfold group_keys. apply sorted_same_elements; try apply keys_sorted.
    intros k. fold (group_keys rows') (group_keys rows).
    rewrite !group_keys_quantities, H. reflexivity. }
  rewrite Hk. apply map_ext. intros [[[ik u] s] d]. f_equal.
  unfold group_sum. f_equal. apply H.
Qed.

Lemma groupby_sum_of_record (rows : list Row) (r : Row) :
  In r rows ->
  exists m, In m (groupby_sum rows)
            /\ master_key m = group_key r
            /\ m_quantity m = fsum (group_quantities_of (group_key r) rows).
Proof.
  intros Hr.
  assert (Hk : In (group_key r) (map master_key (groupby_sum rows))).
  { rewrite master_key_groupby. apply group_keys_In. eauto. }
  apply in_map_iff in Hk as [m [Hm Hin]].
  exists m. split; [exact Hin|]. split; [exact Hm|].
  rewrite <- Hm. apply groupby_sum_In. exact Hin.
Qed.

End Aggregation.

Lemma decimal_float_order : FloatOrder Decimal.builtins.
Proof.
  constructor; simpl.
  - intros x y. rewrite !Qle_bool_iff.
    destruct (Qlt_le_dec x y) as [H|H]; [left; apply Qlt_le_weak|right]; exact H.
  - intros x y z. rewrite !Qle_bool_iff. apply Qle_trans.
Qed.

(** C1 (the code where the claim fails). Two lines of one page spell the
    unit of the same item [EA] and [ea]; both records get the one item
    key, and the master list holds two records with that key, with
    quantities 2 and 3 and no record with their sum. *)
Lemma one_item_key_two_master_rows :
  exists rows : list (@Row Examples.B0),
    extract_rows_from_text (Some Examples.two_spellings) (lit "doc") = Ok rows
    /\ map (fun r => item_key r) rows
       = [lit "ea | 1/2 ball | valve"; lit "ea | 1/2 ball | valve"]
    /\ map (fun m : @MasterRow Examples.B0 =>
              (m_item_key m, m_units m, Decimal.qc_pair (m_quantity m)))
           (groupby_sum rows)
       = [(lit "ea | 1/2 ball | valve", lit "EA", (2%Z, 1%positive));
          (lit "ea | 1/2 ball | valve", lit "ea", (3%Z, 1%positive))].
Proof.
  eexists. split; [vm_compute; reflexivity|].
  split; vm_compute; reflexivity.
Qed.

(** The master list has exactly one record for every combination
    (item_key, units, size, description) present in the raw records and
    no other record; its quantity is the library's sum of the quantities
    of the raw records with that combination, taken in row order.  The
    master list is determined by these per-combination sequences of
    quantities alone: the source of a record and the way records of
    different combinations are interleaved do not matter.  Raw records
    that share an item key but differ in units, size or description give
    different master records carrying that one item key. *)
Theorem groupby_sum_groups (B : PyBuiltins) (rows : list Row) :
  NoDup (map master_key (groupby_sum rows))
  /\ (forall r, In r rows ->
        exists m, In m (groupby_sum rows)
                  /\ master_key m = group_key r
                  /\ m_quantity m
                     = fsum (group_quantities_of (group_key r) rows))
  /\ (forall m, In m (groupby_sum rows) ->
        exists r, In r rows /\ group_key r = master_key m)
  /\ (forall k r, in_group k r = true <-> group_key r = k)
  /\ (forall rows',
        (forall k, group_quantities_of k rows' = group_quantities_of k rows) ->
        groupby_sum rows' = groupby_sum rows)
  /\ (forall r1 r2,
        In r1 rows -> In r2 rows ->
        item_key r1 = item_key r2 -> group_key r1 <> group_key r2 ->
        exists m1 m2,
          In m1 (groupby_sum rows) /\ In m2 (groupby_sum rows)
          /\ m1 <> m2
          /\ m_item_key m1 = item_key r1 /\ m_item_key m2 = item_key r1).
Proof.
  split; [|split; [|split; [|split; [|split]]]].
  - rewrite master_key_groupby. apply sorted_NoDup. apply keys_sorted.
  - apply groupby_sum_of_record.
  - intros m Hm. apply groupby_sum_In in Hm as [Hk _].
    apply group_keys_In. exact Hk.
  - apply in_group_iff.
  - apply groupby_sum_same_groups.
  - intros r1 r2 H1 H2 Hkey Hne.
    destruct (groupby_sum_of_record rows r1 H1) as [m1 [Hin1 [Hk1 _]]].
    destruct (groupby_sum_of_record rows r2 H2) as [m2 [Hin2 [Hk2 _]]].
    exists m1, m2. split; [exact Hin1|]. split; [exact Hin2|]. split.
    + intros E. subst m2. congruence.
    + unfold master_key, group_key in Hk1, Hk2.
      inversion Hk1. inversion Hk2. split; congruence.
Qed.

(** ** Sorting the master list *)

Section Sorting.

Context {B : PyBuiltins}.

Lemma str_leb_compare (a b : str) :
  str_leb a b = true <-> str_compare a b <> Gt.
Proof.
  unfold str_leb. destruct (str_compare a b); split; congruence.
Qed.

Lemma sort_leb_total (L : FloatOrder B) (a b : SortRow) :
  sort_leb a b = true \/ sort_leb b a = true.
Proof.
  unfold sort_leb.
  rewrite (Nat.compare_antisym (unit_sort a) (unit_sort b)).
  destruct (Nat.compare (unit_sort a) (unit_sort b)); simpl; auto.
  rewrite (cmp_antisym str_compare_order
             (m_description (row a)) (m_description (row b))).
  destruct (str_compare (m_description (row a)) (m_description (row b)));
    simpl; auto.
  apply fleb_total.
Qed.

Lemma sort_leb_trans (L : FloatOrder B) (a b c : SortRow) :
  sort_leb a b = true -> sort_leb b c = true -> sort_leb a c = true.
Proof.
  unfold sort_leb.
  destruct (Nat.compare_spec (unit_sort a) (unit_sort b)) as [E1|E1|E1];
    try discriminate;
    destruct (Nat.compare_spec (unit_sort b) (unit_sort c)) as [E2|E2|E2];
    try discriminate.
  - rewrite E1, E2, Nat.compare_refl.
    destruct (str_compare (m_description (row a)) (m_description (row b))) eqn:D1;
      try discriminate;
      destruct (str_compare (m_description (row b)) (m_description (row c))) eqn:D2;
      try discriminate.
    + apply (cmp_eq str_compare_order) in D1, D2.
      rewrite D1, D2, (cmp_refl str_compare_order). apply fleb_trans.
    + apply (cmp_eq str_compare_order) in D1. rewrite D1, D2. auto.
    + apply (cmp_eq str_compare_order) in D2. rewrite <- D2, D1. auto.
    + rewrite (cmp_trans str_compare_order _ _ _ D1 D2). auto.
  - intros _ _. rewrite E1. apply Nat.compare_lt_iff in E2. rewrite E2. reflexivity.
  - intros _ _. rewrite <- E2. apply Nat.compare_lt_iff in E1. rewrite E1. reflexivity.
  - intros _ _.
    assert (E : unit_sort a < unit_sort c) by lia.
    apply Nat.compare_lt_iff in E. rewrite E. reflexivity.
Qed.

Lemma sort_insert_perm (x : SortRow) (l : list SortRow) :
  Permutation (x :: l) (sort_insert x l).
Proof.
  induction l as [|y l IH]; simpl; [reflexivity|].
  destruct (sort_leb x y); [reflexivity|].
  etransitivity; [apply perm_swap|]. constructor. exact IH.
Qed.

Lemma sort_values_perm (l : list SortRow) : Permutation l (sort_values l).
Proof.
  induction l as [|x l IH]; simpl; [constructor|].
  etransitivity; [constructor; exact IH|]. apply sort_insert_perm.
Qed.

Lemma sort_insert_sorted (L : FloatOrder B) (x : SortRow) (l : list SortRow) :
  StronglySorted sort_le l -> StronglySorted sort_le (sort_insert x l).
Proof.
  induction 1 as [|y l Hs IH Hall]; simpl; [repeat constructor|].
  destruct (sort_leb x y) eqn:E.
  - constructor; [constructor; assumption|].
    constructor; [exact E|].
    eapply Forall_impl; [|exact Hall].
    intros z Hz. eapply sort_leb_trans; eassumption.
  - constructor; [exact IH|].
    apply Forall_forall. intros z Hz.
    apply (Permutation_in _ (Permutation_sym (sort_insert_perm x l))) in Hz.
    destruct Hz as [<-|Hz].
    + destruct (sort_leb_total L x y) as [H|H]; [congruence|exact H].
    + rewrite Forall_forall in Hall. auto.
Qed.

Lemma sort_values_sorted (L : FloatOrder B) (l : list SortRow) :
  StronglySorted sort_le (sort_values l).
Proof.
  induction l; simpl; [constructor|apply sort_insert_sorted; assumption].
Qed.

Lemma StronglySorted_nth (A : Type) (R : A -> A -> Prop) (l : list A) :
  StronglySorted R l ->
  forall i j a b, i < j -> nth_error l i = Some a -> nth_error l j = Some b ->
                  R a b.
Proof.
  induction 1 as [|x l Hs IH Hall]; intros i j a b Hij Hi Hj.
  - destruct i; discriminate.
  - destruct j as [|j]; [lia|]. simpl in Hj.
    destruct i as [|i].
    + simpl in Hi. inversion Hi; subst.
      rewrite Forall_forall in Hall. apply Hall.
      eapply nth_error_In. exact Hj.
    + simpl in Hi. apply (IH i j); [lia|assumption..].
Qed.

Lemma add_sort_columns_spec (master : list MasterRow) :
  forall keyed,
    add_sort_columns master = Ok keyed ->
    map row keyed = master /\ Forall sort_columns_ok keyed.
Proof.
  induction master as [|m master IH]; intros keyed E;
    cbn [add_sort_columns] in E.
  - inversion E. split; constructor.
  - destruct (size_to_float (Some (m_size m))) as [f| |] eqn:F; try discriminate.
    cbn [bind] in E.
    destruct (add_sort_columns master) as [rest| |]; try discriminate.
    cbn [bind] in E. inversion E; subst.
    destruct (IH rest eq_refl) as [Hmap Hall].
    split; [simpl; f_equal; exact Hmap|].
    constructor; [split; [reflexivity|exact F]|exact Hall].
Qed.

Lemma add_sort_columns_ok (master : list MasterRow) :
  (forall m, In m master -> exists f, size_to_float (Some (m_size m)) = Ok f) ->
  exists keyed, add_sort_columns master = Ok keyed.
Proof.
  induction master as [|m master IH]; intros H; cbn [add_sort_columns];
    [eauto|].
  destruct (H m (or_introl eq_refl)) as [f ->]. cbn [bind].
  destruct IH as [rest ->]; [intros m' Hm'; apply H; right; exact Hm'|].
  cbn [bind]. eauto.
Qed.

Lemma sort_le_levels (a b : SortRow) :
  sort_le a b ->
  unit_sort a <= unit_sort b
  /\ (unit_sort a = unit_sort b ->
      str_leb (m_description (row a)) (m_description (row b)) = true
      /\ (m_description (row a) = m_description (row b) ->
          fleb (size_sort a) (size_sort b) = true)).
Proof.
  unfold sort_le, sort_leb.
  destruct (Nat.compare_spec (unit_sort a) (unit_sort b)) as [E|E|E];
    try discriminate.
  - intros H. split; [lia|]. intros _. unfold str_leb.
    destruct (str_compare (m_description (row a)) (m_description (row b))) eqn:D;
      try discriminate.
    + split; [reflexivity|]. intros _. exact H.
    + split; [reflexivity|]. intros Heq. rewrite Heq in D.
      rewrite (cmp_refl str_compare_order) in D. discriminate.
  - intros _. split; [lia|]. intros Heq. lia.
Qed.

End Sorting.

(** C3. With a total, transitive order on the size values, the sorted
    master list is a rearrangement of the master list in which, for any
    two records, the earlier one has the smaller or equal unit rank (0
    when the units are LF in upper case, 1 when they are EA, 99
    otherwise; so every LF record precedes every EA record and every EA
    record precedes the others), and when the ranks are equal the
    descriptions are in ascending lexicographic order, and when these are
    equal too the values [size_to_float] gives for the sizes are in
    ascending order.  The sorted list exists exactly when
    [size_to_float] returns for every size. *)
Theorem sorted_master_order (B : PyBuiltins) (L : FloatOrder B)
    (master : list MasterRow) :
  (forall m, with_unit_sort m
             = if str_eqb (upper (m_units m)) (lit "LF") then 0
               else if str_eqb (upper (m_units m)) (lit "EA") then 1 else 99)
  /\ ((forall m, In m master -> exists f, size_to_float (Some (m_size m)) = Ok f)
      <-> exists sorted, sorted_master master = Ok sorted)
  /\ (forall sorted,
        sorted_master master = Ok sorted ->
        Permutation master sorted
        /\ (forall i j a b,
              i < j -> nth_error sorted i = Some a -> nth_error sorted j = Some b ->
              with_unit_sort a <= with_unit_sort b
              /\ (with_unit_sort a = with_unit_sort b ->
                  str_leb (m_description a) (m_description b) = true
                  /\ (m_description a = m_description b ->
                      exists fa fb,
                        size_to_float (Some (m_size a)) = Ok fa
                        /\ size_to_float (Some (m_size b)) = Ok fb
                        /\ fleb fa fb = true)))
        /\ (forall i j a b,
              nth_error sorted i = Some a -> nth_error sorted j = Some b ->
              with_unit_sort a < with_unit_sort b -> i < j)).
Proof.
  split; [intros m; reflexivity|]. split.
  - unfold sorted_master. split.
    + intros H. destruct (add_sort_columns_ok master H) as [keyed ->].
      cbn [bind]. eauto.
    + intros [sorted E] m Hm.
      destruct (add_sort_columns master) as [keyed| |] eqn:K; try discriminate.
      apply add_sort_columns_spec in K as [Hmap Hall].
      rewrite <- Hmap in Hm. apply in_map_iff in Hm as [x [<- Hx]].
      rewrite Forall_forall in Hall. destruct (Hall x Hx) as [_ F]. eauto.
  - intros sorted E. unfold sorted_master in E.
    destruct (add_sort_columns master) as [keyed| |] eqn:K; try discriminate.
    cbn [bind] in E. inversion E; subst sorted. clear E.
    apply add_sort_columns_spec in K as [Hmap Hall].
    pose proof (sort_values_perm keyed) as P.
    pose proof (sort_values_sorted L keyed) as S.
    assert (Hall' : Forall sort_columns_ok (sort_values keyed)).
    { rewrite Forall_forall in *. intros x Hx. apply Hall.
      eapply Permutation_in; [symmetry; exact P|exact Hx]. }
    rewrite Forall_forall in Hall'.
    assert (Hpair : forall i j a b,
              i < j -> nth_error (map row (sort_values keyed)) i = Some a ->
              nth_error (map row (sort_values keyed)) j = Some b ->
              exists x y, row x = a /\ row y = b
                          /\ sort_columns_ok x /\ sort_columns_ok y
                          /\ sort_le x y).
    { intros i j a b Hij Hi Hj. rewrite nth_error_map in Hi, Hj.
      destruct (nth_error (sort_values keyed) i) as [x|] eqn:Xi; [|discriminate].
      destruct (nth_error (sort_values keyed) j) as [y|] eqn:Yj; [|discriminate].
      inversion Hi; inversion Hj; subst.
      exists x, y. repeat split; try reflexivity;
        try (apply Hall'; eapply nth_error_In; eassumption).
      eapply StronglySorted_nth; eassumption. }
    assert (Hlevels : forall i j a b,
              i < j -> nth_error (map row (sort_values keyed)) i = Some a ->
              nth_error (map row (sort_values keyed)) j = Some b ->
              with_unit_sort a <= with_unit_sort b
              /\ (with_unit_sort a = with_unit_sort b ->
                  str_leb (m_description a) (m_description b) = true
                  /\ (m_description a = m_description b ->
                      exists fa fb,
                        size_to_float (Some (m_size a)) = Ok fa
                        /\ size_to_float (Some (m_size b)) = Ok fb
                        /\ fleb fa fb = true))).
    { intros i j a b Hij Hi Hj.
      destruct (Hpair i j a b Hij Hi Hj)
        as [x [y [<- [<- [[Ux Fx] [[Uy Fy] Hle]]]]]].
      apply sort_le_levels in Hle as [H1 H2].
      rewrite <- Ux, <- Uy. split; [exact H1|].
      intros Heq. destruct (H2 Heq) as [H3 H4]. split; [exact H3|].
      intros Hd. exists (size_sort x), (size_sort y). auto. }
    split; [|split].
    + rewrite <- Hmap. apply Permutation_map. exact P.
    + exact Hlevels.
    + intros i j a b Hi Hj Hlt.
      destruct (Nat.lt_trichotomy i j) as [H|[H|H]]; [exact H| |].
      * subst j. rewrite Hi in Hj. inversion Hj; subst. lia.
      * destruct (Hlevels j i b a H Hj Hi) as [Hle _]. lia.
Qed.

(** Five master rows with units LF, EA (in two spellings) and XX. *)
Lemma sorted_master_order_witness :
  sorted_master MoreExamples.mixed_master = Ok MoreExamples.mixed_master_sorted
  /\ Permutation MoreExamples.mixed_master MoreExamples.mixed_master_sorted
  /\ map (with_unit_sort (B := Examples.B0)) MoreExamples.mixed_master_sorted
     = [0; 1; 1; 1; 99].
Proof.
  assert (E : sorted_master MoreExamples.mixed_master
              = Ok MoreExamples.mixed_master_sorted)
    by (vm_compute; reflexivity).
  destruct (proj2 (proj2 (sorted_master_order decimal_float_order
                            MoreExamples.mixed_master)) _ E) as [P _].
  split; [exact E|]. split; [exact P|]. vm_compute. reflexivity.
Defined.

(** ** The run *)

Section Run.

Context {B : PyBuiltins}.

Lemma for_extend_nothing (A R : Type) (body : A -> result (list R)) (xs : list A) :
  (forall x, In x xs -> body x = Ok []) -> for_extend body xs [] = Ok [].
Proof.
  induction xs as [|x xs IH]; intros H; simpl; [reflexivity|].
  rewrite (H x (or_introl eq_refl)). cbn [bind app].
  apply IH. intros y Hy. apply H. right. exact Hy.
Qed.

End Run.

(** C9. When the input folder exists and holds at least one PDF, and the
    extraction of every PDF yields no record, [main] ends by raising
    [RuntimeError] with the message of its own, an error no
    [FileNotFoundError] equals; the output file is left as it was (only
    the output folder has been made), so nothing is aggregated, sorted or
    written. *)
Theorem main_aborts_without_rows (B : PyBuiltins) (w : World) :
  input_dir_exists w = true ->
  input_pdfs w <> [] ->
  (forall pdf, In pdf (input_pdfs w) -> extract_pdf pdf = Ok []) ->
  main w = (mkdir_output w, Raise (RuntimeError (lit "No rows extracted.")))
  /\ output_file (fst (main w)) = output_file w
  /\ (forall msg, RuntimeError (lit "No rows extracted.") <> FileNotFoundError msg).
Proof.
  intros Hdir Hpdfs Hnone.
  assert (E : main w
              = (mkdir_output w, Raise (RuntimeError (lit "No rows extracted.")))).
  { unfold main. rewrite Hdir. cbn [negb].
    change (input_pdfs (mkdir_output w)) with (input_pdfs w).
    rewrite (for_extend_nothing extract_pdf (input_pdfs w) Hnone).
    destruct (input_pdfs w) as [|pdf pdfs]; [congruence|].
    reflexivity. }
  split; [exact E|]. split; [rewrite E; reflexivity|].
  intros msg. discriminate.
Qed.

(** A folder whose only PDF has a page with neither table nor text. *)
Lemma main_aborts_without_rows_witness :
  main MoreExamples.blank_world
  = (mkdir_output MoreExamples.blank_world,
     Raise (RuntimeError (lit "No rows extracted.")))
  /\ output_file (fst (main MoreExamples.blank_world)) = None.
Proof.
  destruct (@main_aborts_without_rows Examples.B0 MoreExamples.blank_world)
    as [E [F _]].
  - reflexivity.
  - discriminate.
  - intros pdf [<-|[]]. vm_compute. reflexivity.
  - split; [exact E|exact F].
Defined.

(** ** Further properties *)

Section Markers.

Context {B : PyBuiltins}.

Lemma find_desc_start_from_inv (tokens : list str) :
  forall i n,
    find_desc_start_from tokens i = Some n ->
    exists k, n = i + k /\ first_desc_start tokens k.
Proof.
  induction tokens as [|t ts IH]; intros i n E;
    cbn [find_desc_start_from] in E; [discriminate|].
  destruct (is_desc_start t) eqn:Ht.
  - inversion E; subst. exists 0. split; [lia|].
    split; [simpl; lia|]. split; [exact Ht|]. intros j Hj. lia.
  - apply IH in E as [k [-> [Hk [Hm Hfirst]]]].
    exists (S k). split; [lia|].
    split; [simpl; lia|]. split; [exact Hm|].
    intros [|j] Hj; [exact Ht|]. apply Hfirst. lia.
Qed.

Lemma find_desc_start_from_none_inv (tokens : list str) :
  forall i,
    find_desc_start_from tokens i = None ->
    forall t, In t tokens -> is_desc_start t = false.
Proof.
  induction tokens as [|t ts IH]; intros i E t' Hin; [destruct Hin|].
  cbn [find_desc_start_from] in E.
  destruct (is_desc_start t) eqn:Ht; [discriminate|].
  destruct Hin as [<-|Hin]; [exact Ht|]. eapply IH; eassumption.
Qed.

End Markers.

(** [find_desc_start_index] finds no position exactly when no token
    matches a marker, and otherwise the first position whose token does. *)
Theorem find_desc_start_index_first (B : PyBuiltins) (tokens : list str) :
  (find_desc_start_index tokens = None
   <-> forall t, In t tokens -> is_desc_start t = false)
  /\ (forall k, find_desc_start_index tokens = Some k
                <-> first_desc_start tokens k).
Proof.
  unfold find_desc_start_index. split; [split|intros k; split].
  - apply find_desc_start_from_none_inv.
  - apply find_desc_start_from_none.
  - intros E. apply find_desc_start_from_inv in E as [k' [-> H]]. exact H.
  - intros H. apply (find_desc_start_from_first 0 H).
Qed.

(** A size that begins with the dimension separator reaches
    [size_to_float] from a page text and ends the run with [IndexError];
    no output file is written. *)
Lemma main_raises_on_leading_x_size :
  main MoreExamples.leading_x_world
  = (mkdir_output MoreExamples.leading_x_world, Raise IndexError).
Proof. vm_compute. reflexivity. Qed.

(** ** The shape of normalised text and of stitched lines *)

Section Shapes.

Context {B : PyBuiltins}.

Lemma word_starts (w : str) : word w -> starts_space w = false.
Proof.
  intros [Hne Hall]. destruct w as [|c w]; [congruence|].
  simpl in *. apply andb_true_iff in Hall as [Hc _].
  apply negb_true_iff. exact Hc.
Qed.

Lemma join_cons_cons (w w' : str) (ws : list str) :
  join [SPACE] (w :: w' :: ws) = w ++ SPACE :: join [SPACE] (w' :: ws).
Proof. reflexivity. Qed.

Lemma lstrip_join (ws : list str) :
  Forall word ws -> lstrip (join [SPACE] ws) = join [SPACE] ws.
Proof.
  intros H. destruct H as [|w ws Hw Hws]; [reflexivity|].
  pose proof (word_starts Hw) as Hs.
  destruct w as [|c w]; [discriminate|]. simpl in Hs.
  destruct ws as [|w' ws]; simpl; rewrite Hs; reflexivity.
Qed.

Lemma rstrip_app_keep (a b : str) :
  rstrip b <> [] -> rstrip (a ++ b) = a ++ rstrip b.
Proof.
  intros Hb. induction a as [|c a IH]; [reflexivity|].
  simpl. rewrite IH. destruct (a ++ rstrip b) eqn:E; [|reflexivity].
  apply app_eq_nil in E as [_ E]. contradiction.
Qed.

Lemma rstrip_word (w : str) : word w -> rstrip w = w.
Proof.
  intros [Hne Hall]. induction w as [|c w IH]; [congruence|].
  simpl in Hall. apply andb_true_iff in Hall as [Hc Hw].
  apply negb_true_iff in Hc. simpl.
  destruct w as [|c' w]; [simpl; rewrite Hc; reflexivity|].
  rewrite IH by (discriminate || assumption). reflexivity.
Qed.

Lemma rstrip_join (ws : list str) :
  Forall word ws -> rstrip (join [SPACE] ws) = join [SPACE] ws.
Proof.
  induction 1 as [|w ws Hw Hws IH]; [reflexivity|].
  destruct ws as [|w' ws]; [apply rstrip_word; exact Hw|].
  rewrite join_cons_cons.
  assert (Hne : rstrip (join [SPACE] (w' :: ws)) <> []).
  { rewrite IH. inversion Hws; subst. apply word_join_nonempty. assumption. }
  change (w ++ SPACE :: join [SPACE] (w' :: ws))
    with (w ++ [SPACE] ++ join [SPACE] (w' :: ws)).
  rewrite app_assoc, rstrip_app_keep by exact Hne.
  rewrite IH, <- app_assoc. reflexivity.
Qed.

Lemma join_chars (ws : list str) (c : char) :
  In c (join [SPACE] ws) -> c = SPACE \/ exists w, In w ws /\ In c w.
Proof.
  induction ws as [|w ws IH]; [intros []|].
  destruct ws as [|w' ws].
  - simpl. intros H. right. exists w. auto.
  - rewrite join_cons_cons. intros H.
    apply in_app_or in H as [H|[<-|H]].
    + right. exists w. split; [left; reflexivity|exact H].
    + left. reflexivity.
    + destruct (IH H) as [E|[x [Hx Hc]]]; [left; exact E|].
      right. exists x. split; [right; exact Hx|exact Hc].
Qed.

Lemma join_app_words (ws1 ws2 : list str) :
  ws1 <> [] -> ws2 <> [] ->
  join [SPACE] (ws1 ++ ws2) = join [SPACE] ws1 ++ [SPACE] ++ join [SPACE] ws2.
Proof.
  intros H1 H2. induction ws1 as [|w ws1 IH]; [congruence|].
  destruct ws1 as [|w' ws1].
  - destruct ws2 as [|v ws2]; [congruence|]. reflexivity.
  - change ((w :: w' :: ws1) ++ ws2) with (w :: (w' :: ws1) ++ ws2).
    change ((w' :: ws1) ++ ws2) with (w' :: ws1 ++ ws2) at 1.
    rewrite join_cons_cons.
    change (w' :: ws1 ++ ws2) with ((w' :: ws1) ++ ws2).
    rewrite IH by discriminate.
    rewrite join_cons_cons, <- app_assoc. reflexivity.
Qed.

Lemma normalize_text_nonempty_tokens (l : str) :
  normalize_text (Some l) <> [] -> split l <> [].
Proof.
  rewrite normalize_text_tokens. intros H E. rewrite E in H. apply H. reflexivity.
Qed.

Lemma split_normalize_text (l : str) :
  split (normalize_text (Some l)) = split l.
Proof.
  rewrite normalize_text_tokens. apply split_join. apply split_words.
Qed.

Lemma normalized_normalize_text (o : option str) : normalized (normalize_text o).
Proof.
  unfold normalized. destruct o as [s|]; [|reflexivity].
  rewrite !normalize_text_tokens, split_join by apply split_words. reflexivity.
Qed.

Lemma normalized_join (ws : list str) :
  Forall word ws -> normalized (join [SPACE] ws).
Proof. apply normalize_text_join. Qed.

(** A stitched pair is the text of the tokens of both lines. *)
Lemma stitched_pair_tokens (l l2 : str) :
  normalize_text (Some l) <> [] -> normalize_text (Some l2) <> [] ->
  normalize_text (Some l) ++ [SPACE] ++ normalize_text (Some l2)
  = join [SPACE] (split l ++ split l2).
Proof.
  intros H1 H2.
  rewrite join_app_words by (apply normalize_text_nonempty_tokens; assumption).
  rewrite !normalize_text_tokens. reflexivity.
Qed.

(** What the stitching keeps, by recursion on the lines. *)
Lemma stitch_rec_shape (n : nat) :
  forall lines, length lines <= n ->
    flat_map split (stitch_rec lines) = flat_map split lines
    /\ Forall (fun l => l <> [] /\ normalized l) (stitch_rec lines)
    /\ length (stitch_rec lines) <= length lines.
Proof.
  induction n as [|n IH]; intros lines Hlen.
  - destruct lines; [|simpl in Hlen; lia]. simpl. auto.
  - destruct lines as [|l rest]; [simpl; auto|].
    simpl in Hlen. cbn [stitch_rec].
    destruct (is_empty (normalize_text (Some l))) eqn:Hcur.
    + apply is_empty_nil in Hcur.
      destruct (IH rest) as [Ht [Hf Hl]]; [lia|].
      assert (Hs : split l = []).
      { rewrite <- split_normalize_text, Hcur. reflexivity. }
      cbn [flat_map length]. rewrite Hs. simpl. split; [exact Ht|]. split; [exact Hf|lia].
    + apply is_empty_false in Hcur.
      assert (Hkeep :
        flat_map split (normalize_text (Some l) :: stitch_rec rest)
        = flat_map split (l :: rest)
        /\ Forall (fun l => l <> [] /\ normalized l)
                  (normalize_text (Some l) :: stitch_rec rest)
        /\ length (normalize_text (Some l) :: stitch_rec rest)
           <= length (l :: rest)).
      { destruct (IH rest) as [Ht [Hf Hl]]; [lia|].
        cbn [flat_map length]. rewrite split_normalize_text, Ht.
        split; [reflexivity|]. split; [|lia].
        constructor; [|exact Hf].
        split; [exact Hcur|apply normalized_normalize_text]. }
      destruct rest as [|l2 rest'].
      { cbn [flat_map length]. rewrite split_normalize_text.
        split; [reflexivity|]. split; [|lia].
        constructor; [|constructor].
        split; [exact Hcur|apply normalized_normalize_text]. }
      destruct (is_wrapped_prefix (normalize_text (Some l))
                && negb (is_empty (normalize_text (Some l2)))) eqn:Hj;
        [|exact Hkeep].
      apply andb_true_iff in Hj as [_ Hn]. apply negb_true_iff in Hn.
      apply is_empty_false in Hn.
      destruct (IH rest') as [Ht [Hf Hl]]; [simpl in Hlen; lia|].
      rewrite stitched_pair_tokens by assumption.
      assert (Hw : Forall word (split l ++ split l2))
        by (apply Forall_app; split; apply split_words).
      cbn [flat_map length]. rewrite split_join by exact Hw.
      rewrite Ht, <- app_assoc. split; [reflexivity|]. split; [|lia].
      constructor; [|exact Hf]. split; [|apply normalized_join; exact Hw].
      pose proof (normalize_text_nonempty_tokens l Hcur) as Hne.
      destruct (split l) as [|w ws] eqn:Hsl; [congruence|].
      apply word_join_nonempty. inversion Hw; assumption.
Qed.

End Shapes.

(** [normalize_text] returns the tokens of its argument joined by single
    ASCII spaces: the result has no leading or trailing white space, the
    same tokens as the argument, and no white space other than the ASCII
    space; an absent argument gives the empty string. *)
Theorem normalize_text_canonical (s : str) :
  normalize_text (Some s) = join [SPACE] (split s)
  /\ strip (normalize_text (Some s)) = normalize_text (Some s)
  /\ split (normalize_text (Some s)) = split s
  /\ (forall c, In c (normalize_text (Some s)) -> isspace c = true -> c = SPACE)
  /\ normalize_text None = [].
Proof.
  pose proof (split_words s) as Hw.
  split; [apply normalize_text_tokens|].
  split; [|split; [apply split_normalize_text|split; [|reflexivity]]].
  - rewrite normalize_text_tokens. unfold strip.
    rewrite lstrip_join, rstrip_join by exact Hw. reflexivity.
  - rewrite normalize_text_tokens. intros c Hc Hsp.
    apply join_chars in Hc as [E|[w [Hin Hcw]]]; [exact E|].
    rewrite Forall_forall in Hw. destruct (Hw w Hin) as [_ Hall].
    rewrite forallb_forall in Hall. specialize (Hall c Hcw).
    rewrite Hsp in Hall. discriminate.
Qed.

(** The stitching always returns, and it neither loses nor invents a
    token: the tokens of the stitched lines, in order, are the tokens of
    the raw lines.  Every stitched line is non-blank and in normalised
    form, and there are at most as many of them as raw lines. *)
Theorem stitch_wrapped_lines_keeps_tokens (B : PyBuiltins) (lines : list str) :
  exists out,
    stitch_wrapped_lines lines = Ok out
    /\ flat_map split out = flat_map split lines
    /\ Forall (fun l => l <> [] /\ normalized l) out
    /\ length out <= length lines.
Proof.
  exists (stitch_rec lines). split; [apply stitch_wrapped_lines_rec|].
  apply stitch_rec_shape with (n := length lines). lia.
Qed.

(** ** Columns and rows of the table extractor *)

Section TableRows.

Context {B : PyBuiltins}.

Lemma find_col_from_none (header : list str) (name : str) (i : nat) :
  find_col_from header name i = None
  <-> forall h, In h header -> contains name h = false.
Proof.
  revert i. induction header as [|h hs IH]; intros i; cbn [find_col_from].
  - split; [intros _ h []|reflexivity].
  - destruct (contains name h) eqn:Hh.
    + split; [discriminate|]. intros H.
      rewrite (H h (or_introl eq_refl)) in Hh. discriminate.
    + rewrite IH. split.
      * intros H h' [<-|Hin]; [exact Hh|apply H; exact Hin].
      * intros H h' Hin. apply H. right. exact Hin.
Qed.

Lemma find_col_from_some (header : list str) (name : str) :
  forall i n,
    find_col_from header name i = Some n
    <-> exists k, n = i + k /\ first_col header name k.
Proof.
  induction header as [|h hs IH]; intros i n; cbn [find_col_from].
  - split; [discriminate|]. intros [k [_ [Hk _]]]. simpl in Hk. lia.
  - destruct (contains name h) eqn:Hh.
    + split.
      * intros E. inversion E; subst. exists 0. split; [lia|].
        split; [simpl; lia|]. split; [exact Hh|]. intros j Hj. lia.
      * intros [k [-> [_ [_ Hfirst]]]]. destruct k as [|k]; [f_equal; lia|].
        pose proof (Hfirst 0 (Nat.lt_0_succ k)) as H0. cbn [nth] in H0.
        congruence.
    + rewrite IH. split.
      * intros [k [-> [Hk [Hm Hfirst]]]]. exists (S k). split; [lia|].
        split; [simpl; lia|]. split; [exact Hm|].
        intros [|j] Hj; [exact Hh|]. apply Hfirst. lia.
      * intros [k [-> [Hk [Hm Hfirst]]]]. destruct k as [|k].
        { cbn [nth] in Hm. congruence. }
        exists k. split; [lia|]. split; [simpl in Hk; lia|].
        split; [exact Hm|]. intros j Hj. apply (Hfirst (S j)). lia.
Qed.

Lemma index_nth_default (A : Type) (l : list A) (i : nat) (d : A) :
  i < length l -> index l i = Ok (nth i l d).
Proof.
  intros H. destruct (index_lt l H) as [x [E N]]. rewrite E.
  f_equal. symmetry. apply nth_error_nth. exact N.
Qed.

Lemma table_row_guard (iq iu isz id : nat) (cells : list (option str)) :
  is_nil cells
  || (length cells <? Nat.max (Nat.max iq iu) (Nat.max isz id) + 1) = false
  <-> iq < length cells /\ iu < length cells
      /\ isz < length cells /\ id < length cells.
Proof.
  rewrite orb_false_iff, Nat.ltb_ge. split.
  - intros [_ H]. lia.
  - intros H. split; [destruct cells; [simpl in H; lia|reflexivity]|lia].
Qed.

(** When a data row yields a record, and which. *)
Lemma table_row_some (source_name : str) (iq iu isz id : nat)
    (cells : list (option str)) (r : Row) :
  table_row source_name iq iu isz id cells = Ok (Some r)
  <-> (iq < length cells /\ iu < length cells
       /\ isz < length cells /\ id < length cells)
      /\ table_cell cells iq <> []
      /\ table_cell cells iu <> []
      /\ table_cell cells id <> []
      /\ exists qty,
          float_of_str (table_cell cells iq) = Some qty
          /\ r = mkRow source_name qty (table_cell cells iu)
                       (table_cell cells isz) (table_cell cells id)
                       (make_item_key (table_cell cells isz)
                                      (table_cell cells id)
                                      (table_cell cells iu)).
Proof.
  unfold table_row, table_cell.
  destruct (is_nil cells || _) eqn:G.
  - split; [discriminate|]. intros [Hb _].
    apply table_row_guard in Hb. congruence.
  - pose proof (proj1 (table_row_guard iq iu isz id cells) G) as Hb.
    destruct Hb as [Hq [Hu [Hs Hd]]].
    rewrite (@index_nth_default _ cells iq None Hq),
      (@index_nth_default _ cells iu None Hu),
      (@index_nth_default _ cells isz None Hs),
      (@index_nth_default _ cells id None Hd).
    cbn [bind].
    destruct (is_empty (normalize_text (nth iq cells None))) eqn:Eq;
      [apply is_empty_nil in Eq|apply is_empty_false in Eq];
      cbn [orb];
      [split; [discriminate|intros [_ [H _]]; contradiction]|].
    destruct (is_empty (normalize_text (nth iu cells None))) eqn:Eu;
      [apply is_empty_nil in Eu|apply is_empty_false in Eu];
      cbn [orb];
      [split; [discriminate|intros [_ [_ [H _]]]; contradiction]|].
    destruct (is_empty (normalize_text (nth id cells None))) eqn:Ed;
      [apply is_empty_nil in Ed|apply is_empty_false in Ed];
      [split; [discriminate|intros [_ [_ [_ [H _]]]]; contradiction]|].
    destruct (float_of_str (normalize_text (nth iq cells None))) as [qty|].
    + split.
      * intros E. inversion E; subst.
        exact (conj (conj Hq (conj Hu (conj Hs Hd)))
                 (conj Eq (conj Eu (conj Ed
                    (ex_intro _ qty (conj eq_refl eq_refl)))))).
      * intros [_ [_ [_ [_ [qty' [E ->]]]]]]. inversion E; subst. reflexivity.
    + split; [discriminate|].
      intros [_ [_ [_ [_ [qty' [E _]]]]]]. discriminate.
Qed.

Lemma table_row_record_ok (source_name : str) (iq iu isz id : nat)
    (cells : list (option str)) (r : Row) :
  table_row source_name iq iu isz id cells = Ok (Some r) ->
  record_ok source_name r.
Proof.
  intros H. apply table_row_some in H
    as [_ [_ [Hu [Hd [qty [_ ->]]]]]].
  unfold record_ok, key_consistent, table_cell in *. cbn.
  repeat split; try assumption; apply normalized_normalize_text.
Qed.

Lemma for_append_inv (A R : Type) (body : A -> result (option R)) (xs : list A) :
  forall rows out,
    for_append body xs rows = Ok out ->
    exists more,
      out = rows ++ more
      /\ Forall (fun r => exists x, In x xs /\ body x = Ok (Some r)) more
      /\ length more <= length xs.
Proof.
  induction xs as [|x xs IH]; intros rows out E; cbn [for_append] in E.
  - inversion E; subst. exists []. rewrite app_nil_r. simpl. auto.
  - destruct (body x) as [o| |] eqn:Hx; try discriminate. cbn [bind] in E.
    apply IH in E as [more [-> [Hall Hlen]]].
    assert (Hall' : Forall (fun r => exists y, In y (x :: xs)
                                              /\ body y = Ok (Some r)) more).
    { eapply Forall_impl; [|exact Hall].
      intros r [y [Hy Hb]]. exists y. split; [right; exact Hy|exact Hb]. }
    destruct o as [r|].
    + exists (r :: more). rewrite <- app_assoc. split; [reflexivity|].
      split; [|simpl; lia].
      constructor; [|exact Hall']. exists x. split; [left; reflexivity|exact Hx].
    + exists more. split; [reflexivity|]. split; [exact Hall'|simpl; lia].
Qed.

End TableRows.

Section TableExits.

Context {B : PyBuiltins}.

(** The summary of a run of the table extractor that returns no record
    through one of its guards. *)
Lemma table_rejected (table : option table_grid) (source_name : str)
    (e : table_exit) :
  e <> ExitRows ->
  ~ (exists t, table = Some t /\ 2 <= length t
               /\ header_has_hint (hd [] t)
               /\ columns_resolved (table_header (hd [] t))) ->
  (e = ExitRows
   <-> exists t, table = Some t /\ 2 <= length t
                 /\ header_has_hint (hd [] t)
                 /\ columns_resolved (table_header (hd [] t)))
  /\ (e <> ExitRows -> @nil Row = [])
  /\ Forall (record_ok source_name) []
  /\ length (@nil Row)
     <= length (match table with Some t => t | None => [] end) - 1.
Proof.
  intros He Hno. split; [split; [congruence|contradiction]|].
  split; [reflexivity|]. split; [constructor|simpl; lia].
Qed.

End TableExits.

(** [find_col] returns the leftmost column whose header cell contains the
    name as a substring, and [None] exactly when no header cell does. *)
Theorem find_col_leftmost (header : list str) (name : str) :
  (find_col header name = None
   <-> forall h, In h header -> contains name h = false)
  /\ (forall i, find_col header name = Some i <-> first_col header name i).
Proof.
  unfold find_col. split; [apply find_col_from_none|].
  intros i. rewrite find_col_from_some. split.
  - intros [k [-> H]]. exact H.
  - intros H. exists i. auto.
Qed.

(** A data row yields a record exactly when it reaches all four resolved
    columns, its quantity, units and description cells are non-empty once
    normalised (an absent cell counting as empty), and [float] reads the
    quantity; the record then holds the four normalised cells, the size
    possibly empty.  In every other case the row is skipped without an
    error. *)
Theorem table_row_acceptance (B : PyBuiltins) (source_name : str)
    (iq iu isz id : nat) (cells : list (option str)) :
  (forall r,
      table_row source_name iq iu isz id cells = Ok (Some r)
      <-> (iq < length cells /\ iu < length cells
           /\ isz < length cells /\ id < length cells)
          /\ table_cell cells iq <> []
          /\ table_cell cells iu <> []
          /\ table_cell cells id <> []
          /\ exists qty,
              float_of_str (table_cell cells iq) = Some qty
              /\ r = mkRow source_name qty (table_cell cells iu)
                           (table_cell cells isz) (table_cell cells id)
                           (make_item_key (table_cell cells isz)
                                          (table_cell cells id)
                                          (table_cell cells iu)))
  /\ ((forall r, table_row source_name iq iu isz id cells <> Ok (Some r))
      -> table_row source_name iq iu isz id cells = Ok None).
Proof.
  split; [intros r; apply table_row_some|].
  intros H. destruct (table_row_ok source_name iq iu isz id cells) as [[r|] E];
    [destruct (H r E)|exact E].
Qed.

(** The run of the table extractor, summed up. *)
Lemma extract_rows_from_table_summary (B : PyBuiltins)
    (table : option table_grid) (source_name : str) :
  exists e rows,
    extract_rows_from_table_exit table source_name = Ok (e, rows)
    /\ extract_rows_from_table table source_name = Ok rows
    /\ (e = ExitRows
        <-> exists t, table = Some t /\ 2 <= length t
                      /\ header_has_hint (hd [] t)
                      /\ columns_resolved (table_header (hd [] t)))
    /\ (e <> ExitRows -> rows = [])
    /\ Forall (record_ok source_name) rows
    /\ length rows <= length (match table with Some t => t | None => [] end) - 1.
Proof.
  unfold extract_rows_from_table, extract_rows_from_table_exit.
  destruct table as [t|].
  2:{ exists ExitNoTable, []. split; [reflexivity|]. split; [reflexivity|].
      apply table_rejected; [discriminate|].
      intros [t [Ht _]]. discriminate. }
  destruct t as [|row0 [|row1 t]].
  1,2: exists ExitNoTable, []; split; [reflexivity|]; split; [reflexivity|];
       apply table_rejected; [discriminate|];
       intros [t' [Ht [Hlen _]]]; inversion Ht; subst; simpl in Hlen; lia.
  cbn [is_nil orb length Nat.ltb Nat.leb index nth_error bind hd List.tl].
  pose proof (header_guard_iff row0) as G.
  destruct (existsb (fun h => in_set h HEADER_HINTS) (table_header row0)) eqn:X;
    cbn [negb].
  2:{ exists ExitNoHint, []. split; [reflexivity|]. split; [reflexivity|].
      apply table_rejected; [discriminate|].
      intros [t' [Ht [_ [Hh _]]]]. inversion Ht; subst.
      apply G in Hh. discriminate. }
  assert (Hh : header_has_hint row0) by (apply G; reflexivity).
  destruct (find_col (table_header row0) (lit "quantity")) as [iq|] eqn:Fq.
  2:{ exists ExitNoColumn, []. split; [reflexivity|]. split; [reflexivity|].
      apply table_rejected; [discriminate|].
      intros [t' [Ht [_ [_ [a [b [c [d [Ha _]]]]]]]]]. inversion Ht; subst.
      cbn [hd] in Ha. congruence. }
  destruct (find_col (table_header row0) (lit "units")) as [iu|] eqn:Fu.
  2:{ exists ExitNoColumn, []. split; [reflexivity|]. split; [reflexivity|].
      apply table_rejected; [discriminate|].
      intros [t' [Ht [_ [_ [a [b [c [d [_ [Hb _]]]]]]]]]]. inversion Ht; subst.
      cbn [hd] in Hb. congruence. }
  destruct (find_col (table_header row0) (lit "size")) as [isz|] eqn:Fs.
  2:{ exists ExitNoColumn, []. split; [reflexivity|]. split; [reflexivity|].
      apply table_rejected; [discriminate|].
      intros [t' [Ht [_ [_ [a [b [c [d [_ [_ [Hc _]]]]]]]]]]].
      inversion Ht; subst. cbn [hd] in Hc. congruence. }
  destruct (find_col (table_header row0) (lit "description")) as [id|] eqn:Fd.
  2:{ exists ExitNoColumn, []. split; [reflexivity|]. split; [reflexivity|].
      apply table_rejected; [discriminate|].
      intros [t' [Ht [_ [_ [a [b [c [d [_ [_ [_ Hd]]]]]]]]]]].
      inversion Ht; subst. cbn [hd] in Hd. congruence. }
  destruct (for_append_ok (table_row source_name iq iu isz id) (row1 :: t)
              (table_row_ok source_name iq iu isz id) []) as [out E].
  rewrite E. cbn [bind snd].
  apply for_append_inv in E as [more [-> [Hall Hlen]]].
  exists ExitRows, ([] ++ more). cbn [app].
  split; [reflexivity|]. split; [reflexivity|].
  split; [|split; [congruence|split]].
  - split; [intros _|reflexivity].
    exists (row0 :: row1 :: t). split; [reflexivity|].
    split; [simpl; lia|]. split; [exact Hh|].
    exists iq, iu, isz, id. auto.
  - eapply Forall_impl; [|exact Hall].
    intros r [x [_ Hx]]. eapply table_row_record_ok. exact Hx.
  - simpl in *. lia.
Qed.

(** On every table the extractor returns; it leaves through the last
    [return] exactly when the table has at least two rows, some header
    cell is a hint token and all four columns are found, and otherwise
    returns no record.  Every record it returns carries the given source,
    non-empty units and description, fields in normalised form and the
    key of its own fields, and there are at most as many records as data
    rows. *)
Theorem extract_rows_from_table_records (B : PyBuiltins)
    (table : option table_grid) (source_name : str) :
  exists e rows,
    extract_rows_from_table_exit table source_name = Ok (e, rows)
    /\ extract_rows_from_table table source_name = Ok rows
    /\ (e = ExitRows
        <-> exists t, table = Some t /\ 2 <= length t
                      /\ header_has_hint (hd [] t)
                      /\ columns_resolved (table_header (hd [] t)))
    /\ (e <> ExitRows -> rows = [])
    /\ Forall (record_ok source_name) rows
    /\ length rows <= length (match table with Some t => t | None => [] end) - 1.
Proof. apply extract_rows_from_table_summary. Qed.

(** ** Records of the text extractor *)

Section TextRecords.

Context {B : PyBuiltins}.

Lemma normalized_word (w : str) : word w -> normalized w.
Proof.
  intros Hw. apply (normalized_join (ws := [w])). constructor; [exact Hw|constructor].
Qed.

Lemma Forall_nth_word (ws : list str) (i : nat) :
  Forall word ws -> i < length ws -> word (nth i ws []).
Proof.
  intros H Hi. rewrite Forall_forall in H. apply H. apply nth_In. exact Hi.
Qed.

(** What a record of the loop body says about its line. *)
Lemma text_row_some_inv (source_name line : str) (r : Row) :
  text_row source_name line = Ok (Some r) ->
  text_prefix_ok line = true
  /\ source r = source_name
  /\ float_of_str (nth 0 (split (normalize_text (Some line))) [])
     = Some (quantity r)
  /\ units r = nth 1 (split (normalize_text (Some line))) []
  /\ split (size r) ++ split (description r) = text_remainder line
  /\ text_record_ok source_name r.
Proof.
  unfold text_row, text_prefix_ok, text_remainder.
  set (nline := normalize_text (Some line)).
  set (parts := split nline).
  destruct (is_empty nline) eqn:Hne; [discriminate|].
  destruct (startswith (lower nline) (lit "dkc -")
            || startswith (lower nline) (lit "quantity units")) eqn:Hnoise;
    [discriminate|].
  destruct (length parts <? 4) eqn:Hlen; [discriminate|].
  apply Nat.ltb_ge in Hlen.
  rewrite !index_nth by lia. cbn [bind].
  destruct (float_of_str (nth 0 parts [])) as [qty|]; [|discriminate].
  assert (Hparts : Forall word parts) by apply split_words.
  assert (Hword : nth 1 parts [] <> [])
    by (apply (@Forall_nth_word parts 1); [exact Hparts|lia]).
  assert (Hu : normalize_text (Some (nth 1 parts [])) = nth 1 parts []).
  { apply normalized_word. apply Forall_nth_word; [exact Hparts|lia]. }
  rewrite Hu.
  destruct (in_set (upper (nth 1 parts [])) [lit "EA"; lit "LF"]) eqn:Hunit;
    [|discriminate].
  cbn [negb andb].
  set (remainder := skipn 2 parts).
  assert (Hrem : Forall word remainder) by (apply Forall_skipn; exact Hparts).
  assert (Hcommon : forall sz ds : list str,
            Forall word sz -> Forall word ds -> sz ++ ds = remainder ->
            (if is_empty (normalize_text (Some (join [SPACE] ds)))
             then Ok None
             else Ok (Some (mkRow source_name qty (nth 1 parts [])
                                  (normalize_text (Some (join [SPACE] sz)))
                                  (normalize_text (Some (join [SPACE] ds)))
                                  (make_item_key
                                     (normalize_text (Some (join [SPACE] sz)))
                                     (normalize_text (Some (join [SPACE] ds)))
                                     (nth 1 parts []))))) = Ok (Some r) ->
            true = true
            /\ source r = source_name
            /\ Some qty = Some (quantity r)
            /\ units r = nth 1 parts []
            /\ split (size r) ++ split (description r) = remainder
            /\ text_record_ok source_name r).
  { intros sz ds Hsz Hds Happ E.
    destruct (is_empty (normalize_text (Some (join [SPACE] ds)))) eqn:Hd;
      [discriminate|].
    apply is_empty_false in Hd.
    rewrite (normalize_text_join Hds) in Hd, E.
    rewrite (normalize_text_join Hsz) in E.
    inversion E; subst r. cbn [source quantity units size description].
    rewrite !split_join by assumption.
    split; [reflexivity|]. split; [reflexivity|]. split; [reflexivity|].
    split; [reflexivity|]. split; [exact Happ|].
    unfold text_record_ok, record_ok, key_consistent.
    cbn [source quantity units size description item_key].
    split; [|exact Hunit].
    split; [reflexivity|]. split; [exact Hword|]. split; [exact Hd|].
    split; [exact Hu|].
    split; [apply normalized_join; exact Hsz|].
    split; [apply normalized_join; exact Hds|reflexivity]. }
  destruct (find_desc_start_index remainder) as [[|k]|].
  - apply (Hcommon [] remainder); [constructor|exact Hrem|reflexivity].
  - apply (Hcommon (firstn (S k) remainder) (skipn (S k) remainder));
      [apply Forall_firstn; exact Hrem|apply Forall_skipn; exact Hrem
      |apply firstn_skipn].
  - apply (Hcommon [] remainder); [constructor|exact Hrem|reflexivity].
Qed.

Lemma text_row_rejects (source_name line : str) :
  text_prefix_ok line = false -> text_row source_name line = Ok None.
Proof.
  intros H. destruct (text_row_ok source_name line) as [[r|] E]; [|exact E].
  apply text_row_some_inv in E as [E _]. congruence.
Qed.

End TextRecords.

(** The loop body of the text extractor emits a record exactly for the
    lines that pass the prefix checks, and skips every other line without
    an error.  The record takes its quantity from the first token and its
    units from the second as written, and its size and description
    together hold exactly the remaining tokens, in order: no token of the
    line is lost or repeated. *)
Theorem text_row_acceptance (B : PyBuiltins) (source_name line : str) :
  ((exists r, text_row source_name line = Ok (Some r))
   <-> text_prefix_ok line = true)
  /\ (text_prefix_ok line = false -> text_row source_name line = Ok None)
  /\ (forall r,
        text_row source_name line = Ok (Some r) ->
        float_of_str (nth 0 (split (normalize_text (Some line))) [])
        = Some (quantity r)
        /\ units r = nth 1 (split (normalize_text (Some line))) []
        /\ split (size r) ++ split (description r) = text_remainder line).
Proof.
  split; [split|split].
  - intros [r E]. apply text_row_some_inv in E. tauto.
  - intros H. destruct (text_row_fields source_name line H) as [r [E _]]. eauto.
  - apply text_row_rejects.
  - intros r E. apply text_row_some_inv in E. tauto.
Qed.

(** The run of the text extractor, summed up. *)
Lemma extract_rows_from_text_summary (B : PyBuiltins)
    (text : option str) (source_name : str) :
  exists rows,
    extract_rows_from_text text source_name = Ok rows
    /\ Forall (text_record_ok source_name) rows
    /\ length rows
       <= length (splitlines (match text with Some t => t | None => [] end))
    /\ (text = None \/ text = Some [] -> rows = []).
Proof.
  unfold extract_rows_from_text.
  destruct text as [t|].
  2:{ exists []. repeat split; auto. }
  destruct (is_empty t) eqn:Ht.
  { exists []. split; [reflexivity|]. split; [constructor|].
    split; [simpl; lia|reflexivity]. }
  rewrite stitch_wrapped_lines_rec. cbn [bind].
  destruct (for_append_ok (text_row source_name) (stitch_rec (splitlines t))
              (text_row_ok source_name) []) as [out E].
  rewrite E. apply for_append_inv in E as [more [-> [Hall Hlen]]].
  exists ([] ++ more). cbn [app]. split; [reflexivity|]. split; [|split].
  - eapply Forall_impl; [|exact Hall].
    intros r [x [_ Hx]]. apply text_row_some_inv in Hx. tauto.
  - destruct (@stitch_rec_shape B (length (splitlines t)) (splitlines t) (le_n _))
      as [_ [_ Hl]]. lia.
  - intros [H|H]; [discriminate|]. inversion H; subst. discriminate.
Qed.

(** On every text the extractor returns; an absent or empty text gives no
    record.  Every record carries the given source, units that are EA or
    LF in upper case, a non-empty description, fields in normalised form
    and the key of its own fields; and there are at most as many records
    as lines of the text. *)
Theorem extract_rows_from_text_records (B : PyBuiltins)
    (text : option str) (source_name : str) :
  exists rows,
    extract_rows_from_text text source_name = Ok rows
    /\ Forall (text_record_ok source_name) rows
    /\ length rows
       <= length (splitlines (match text with Some t => t | None => [] end))
    /\ (text = None \/ text = Some [] -> rows = []).
Proof. apply extract_rows_from_text_summary. Qed.

(** ** Pages and documents *)

Section Documents.

Context {B : PyBuiltins}.

Lemma for_extend_acc (A R : Type) (body : A -> result (list R)) (xs : list A) :
  forall acc,
    for_extend body xs acc = (r <- for_extend body xs [] ;; Ok (acc ++ r)).
Proof.
  induction xs as [|x xs IH]; intros acc; cbn [for_extend].
  - cbn [bind]. rewrite app_nil_r. reflexivity.
  - destruct (body x) as [more| |]; cbn [bind]; try reflexivity.
    rewrite (IH (acc ++ more)), (IH ([] ++ more)).
    destruct (for_extend body xs []); cbn [bind app]; try reflexivity.
    rewrite app_assoc. reflexivity.
Qed.

Lemma for_extend_cons (A R : Type) (body : A -> result (list R))
    (x : A) (xs : list A) :
  for_extend body (x :: xs) []
  = (r1 <- body x ;; r2 <- for_extend body xs [] ;; Ok (r1 ++ r2)).
Proof.
  cbn [for_extend]. destruct (body x) as [more| |]; cbn [bind app]; try reflexivity.
  apply for_extend_acc.
Qed.

Lemma for_extend_app (A R : Type) (body : A -> result (list R)) (xs ys : list A) :
  for_extend body (xs ++ ys) []
  = (r1 <- for_extend body xs [] ;; r2 <- for_extend body ys [] ;; Ok (r1 ++ r2)).
Proof.
  induction xs as [|x xs IH].
  - cbn [app for_extend bind]. destruct (for_extend body ys []); reflexivity.
  - change ((x :: xs) ++ ys) with (x :: xs ++ ys).
    rewrite !for_extend_cons, IH.
    destruct (body x) as [r| |]; cbn [bind]; try reflexivity.
    destruct (for_extend body xs []) as [r1| |]; cbn [bind]; try reflexivity.
    destruct (for_extend body ys []) as [r2| |]; cbn [bind]; try reflexivity.
    rewrite app_assoc. reflexivity.
Qed.

Lemma for_extend_Forall (A R : Type) (body : A -> result (list R))
    (P : R -> Prop) (xs : list A) :
  (forall x, In x xs -> exists r, body x = Ok r /\ Forall P r) ->
  exists out, for_extend body xs [] = Ok out /\ Forall P out.
Proof.
  induction xs as [|x xs IH]; intros H.
  - exists []. split; [reflexivity|constructor].
  - rewrite for_extend_cons.
    destruct (H x (or_introl eq_refl)) as [r [-> Hr]].
    destruct IH as [out [-> Hout]]; [intros y Hy; apply H; right; exact Hy|].
    cbn [bind]. exists (r ++ out). split; [reflexivity|].
    apply Forall_app. auto.
Qed.

Lemma text_record_is_record (source_name : str) (r : Row) :
  text_record_ok source_name r -> record_ok source_name r.
Proof. intros [H _]. exact H. Qed.

(** What a page adds: the table records, and the text records too when
    the table gave fewer than two. *)
Lemma page_rows_summary (source_name : str) (page : Page) :
  exists trows xrows,
    extract_rows_from_table (extract_table page) source_name = Ok trows
    /\ extract_rows_from_text (Some (page_text_or_empty page)) source_name
       = Ok xrows
    /\ page_rows source_name page
       = Ok (if length trows <? 2 then trows ++ xrows else trows)
    /\ Forall (record_ok source_name) trows
    /\ Forall (record_ok source_name) xrows.
Proof.
  destruct (extract_rows_from_table_summary B (extract_table page) source_name)
    as [e [trows [_ [Ht [_ [_ [Hok _]]]]]]].
  destruct (extract_rows_from_text_summary B
              (Some (page_text_or_empty page)) source_name)
    as [xrows [Hx [Hxok _]]].
  exists trows, xrows. split; [exact Ht|]. split; [exact Hx|].
  split; [|split; [exact Hok|]].
  - assert (Htext : match extract_text page with
                    | Some t => if is_empty t then [] else t
                    | None => []
                    end = page_text_or_empty page).
    { unfold page_text_or_empty.
      destruct (extract_text page) as [[|c t]|]; reflexivity. }
    unfold page_rows. rewrite Ht. cbn [bind].
    destruct (length trows <? 2); [|reflexivity].
    cbv zeta. rewrite Htext.
    match goal with
    | |- bind ?m _ = _ => replace m with (Ok xrows) by (symmetry; exact Hx)
    end.
    reflexivity.
  - eapply Forall_impl; [|exact Hxok]. apply text_record_is_record.
Qed.

Lemma page_rows_records (source_name : str) (page : Page) :
  exists rows,
    page_rows source_name page = Ok rows /\ Forall (record_ok source_name) rows.
Proof.
  destruct (page_rows_summary source_name page)
    as [trows [xrows [_ [_ [-> [Ht Hx]]]]]].
  eexists. split; [reflexivity|].
  destruct (length trows <? 2); [apply Forall_app; auto|exact Ht].
Qed.

Lemma extract_pdf_records (pdf : PdfFile) :
  exists rows,
    extract_pdf pdf = Ok rows /\ Forall (record_ok (stem pdf)) rows.
Proof.
  unfold extract_pdf. apply for_extend_Forall.
  intros page _. apply page_rows_records.
Qed.

End Documents.

(** The page coordinator never raises.  A page whose table gives two or
    more records contributes exactly those, whatever its text; a page
    whose table gives fewer contributes them followed by the records of
    its text (an absent text reading as empty), with no deduplication. *)
Theorem page_rows_fallback (B : PyBuiltins) (source_name : str) (page : Page) :
  exists trows xrows,
    extract_rows_from_table (extract_table page) source_name = Ok trows
    /\ extract_rows_from_text (Some (page_text_or_empty page)) source_name
       = Ok xrows
    /\ page_rows source_name page
       = Ok (if length trows <? 2 then trows ++ xrows else trows)
    /\ (2 <= length trows ->
        forall text,
          page_rows source_name (mkPage (extract_table page) text) = Ok trows).
Proof.
  destruct (page_rows_summary source_name page)
    as [trows [xrows [Ht [Hx [Hp _]]]]].
  exists trows, xrows. split; [exact Ht|]. split; [exact Hx|].
  split; [exact Hp|].
  intros Hlen text. unfold page_rows. cbn [extract_table].
  rewrite Ht. cbn [bind].
  destruct (length trows <? 2) eqn:E; [apply Nat.ltb_lt in E; lia|reflexivity].
Qed.

(** [extract_pdf] never raises; every record it returns carries the stem
    of the document as its source, non-empty units and description,
    fields in normalised form and the key of its own fields; and the
    records of a document are those of its pages in page order, so that
    splitting the page list splits the record list. *)
Theorem extract_pdf_pages (B : PyBuiltins) (pdf : PdfFile) :
  (exists rows,
      extract_pdf pdf = Ok rows /\ Forall (record_ok (stem pdf)) rows)
  /\ (forall pages1 pages2,
        pages pdf = pages1 ++ pages2 ->
        exists rows1 rows2,
          extract_pdf (mkPdf (stem pdf) pages1) = Ok rows1
          /\ extract_pdf (mkPdf (stem pdf) pages2) = Ok rows2
          /\ extract_pdf pdf = Ok (rows1 ++ rows2))
  /\ (pages pdf = [] -> extract_pdf pdf = Ok []).
Proof.
  split; [apply extract_pdf_records|]. split.
  - intros pages1 pages2 Hp.
    destruct (extract_pdf_records (mkPdf (stem pdf) pages1)) as [rows1 [H1 _]].
    destruct (extract_pdf_records (mkPdf (stem pdf) pages2)) as [rows2 [H2 _]].
    exists rows1, rows2. split; [exact H1|]. split; [exact H2|].
    unfold extract_pdf in *. cbn [stem pages] in H1, H2.
    rewrite Hp, for_extend_app, H1, H2. reflexivity.
  - intros Hp. unfold extract_pdf. rewrite Hp. reflexivity.
Qed.

(** ** The size of the master list *)

Section MasterSize.

Context {B : PyBuiltins}.

Lemma insert_key_length (k : group_key_t) (ks : list group_key_t) :
  1 <= length (insert_key k ks) <= S (length ks).
Proof.
  induction ks as [|k' ks IH]; cbn [insert_key]; [simpl; lia|].
  destruct (key_compare k k'); simpl in *; lia.
Qed.

Lemma group_keys_length (rows : list Row) :
  length (group_keys rows) <= length rows
  /\ (rows <> [] -> 1 <= length (group_keys rows)).
Proof.
  unfold group_keys. induction rows as [|r rows IH]; [simpl; split; [lia|congruence]|].
  cbn [map fold_right length].
  pose proof (insert_key_length (group_key r)
                (fold_right insert_key [] (map group_key rows))) as H.
  split; [lia|intros _; lia].
Qed.

Lemma groupby_sum_length (rows : list Row) :
  length (groupby_sum rows) = length (group_keys rows).
Proof. unfold groupby_sum. apply length_map. Qed.

Lemma groupby_sum_consistent (rows : list Row) :
  Forall key_consistent rows ->
  Forall master_key_consistent (groupby_sum rows).
Proof.
  intros H. apply Forall_forall. intros m Hm.
  apply groupby_sum_In in Hm as [Hk _].
  apply group_keys_In in Hk as [r [Hr Hkey]].
  rewrite Forall_forall in H. specialize (H r Hr).
  unfold key_consistent in H. unfold master_key_consistent.
  unfold group_key, master_key in Hkey. inversion Hkey. congruence.
Qed.

End MasterSize.

(** The master list has at most as many records as there are raw records
    and is empty only when there is none; and when every raw record
    carries the key of its own fields, so does every master record. *)
Theorem groupby_sum_size (B : PyBuiltins) (rows : list Row) :
  length (groupby_sum rows) <= length rows
  /\ (groupby_sum rows = [] <-> rows = [])
  /\ (Forall key_consistent rows ->
      Forall master_key_consistent (groupby_sum rows)).
Proof.
  pose proof (group_keys_length rows) as [Hle Hne].
  pose proof (groupby_sum_length rows) as Hlen.
  split; [lia|]. split; [|apply groupby_sum_consistent].
  split.
  - intros E. destruct rows as [|r rows]; [reflexivity|].
    rewrite E in Hlen. simpl in Hlen.
    assert (1 <= length (group_keys (r :: rows))) by (apply Hne; discriminate).
    lia.
  - intros ->. reflexivity.
Qed.

(** ** Reading a size *)

Section SizeValue.

Context {B : PyBuiltins}.

Lemma size_to_float_value (size : str) :
  size <> [] ->
  size_to_float (Some size)
  = match split (before_first_x size) with
    | [] => Raise IndexError
    | t :: _ => Ok (match float_of_str t with Some f => f | None => fzero end)
    end.
Proof.
  intros Hne. unfold size_to_float, before_first_x.
  apply is_empty_false in Hne. rewrite Hne.
  destruct (split_on_head 120%N
              (replace 190%N (lit ".75")
                 (replace 189%N (lit ".5") (replace 188%N (lit ".25") size))))
    as [w [ws ->]].
  cbn [index nth_error bind hd]. rewrite split_strip.
  destruct (split w) as [|t ts]; [reflexivity|].
  cbn [index nth_error bind]. destruct (float_of_str t); reflexivity.
Qed.

Lemma size_to_float_ok_iff (size : str) :
  (exists f, size_to_float (Some size) = Ok f) <-> size_readable size.
Proof.
  unfold size_readable. destruct size as [|c size].
  - split; [auto|]. intros _. exists fzero. reflexivity.
  - rewrite size_to_float_value by discriminate.
    destruct (split (before_first_x (c :: size))) as [|t ts].
    + split; [intros [f H]; discriminate|].
      intros [H|H]; [discriminate|congruence].
    + split; [intros _; right; discriminate|eauto].
Qed.

Lemma size_to_float_cases (size : str) :
  (exists f, size_to_float (Some size) = Ok f)
  \/ size_to_float (Some size) = Raise IndexError.
Proof.
  destruct size as [|c size]; [left; exists fzero; reflexivity|].
  rewrite size_to_float_value by discriminate.
  destruct (split (before_first_x (c :: size))); eauto.
Qed.

Lemma replace_app (old : char) (new a b : str) :
  replace old new (a ++ b) = replace old new a ++ replace old new b.
Proof. unfold replace. apply flat_map_app. Qed.

Lemma replace_keeps_out (old x : char) (new a : str) :
  ~ In x new -> ~ In x a -> ~ In x (replace old new a).
Proof.
  intros Hnew Ha Hin. unfold replace in Hin. apply in_flat_map in Hin
    as [c [Hc Hx]].
  destruct (char_eqb c old); [contradiction|].
  destruct Hx as [<-|[]]. contradiction.
Qed.

Lemma replace_glyphs_app (a b : str) :
  replace_glyphs (a ++ b) = replace_glyphs a ++ replace_glyphs b.
Proof. unfold replace_glyphs. rewrite !replace_app. reflexivity. Qed.

Lemma replace_glyphs_no_x (a : str) :
  ~ In 120%N a -> ~ In 120%N (replace_glyphs a).
Proof.
  intros H. unfold replace_glyphs.
  repeat (apply replace_keeps_out;
          [intros Hin; vm_compute in Hin; intuition discriminate|]).
  exact H.
Qed.

Lemma split_on_first (sep : char) (a b : str) :
  ~ In sep a -> hd [] (split_on sep (a ++ sep :: b)) = a.
Proof.
  induction a as [|c a IH]; intros H.
  - cbn [app split_on]. unfold char_eqb. rewrite N.eqb_refl. reflexivity.
  - cbn [app split_on].
    destruct (char_eqb c sep) eqn:E.
    + apply N.eqb_eq in E. subst. exfalso. apply H. left. reflexivity.
    + assert (Ha : ~ In sep a) by (intros Hin; apply H; right; exact Hin).
      specialize (IH Ha).
      destruct (split_on sep (a ++ sep :: b)) as [|w ws]; cbn [hd] in *;
        [subst; reflexivity|subst; reflexivity].
Qed.

Lemma before_first_x_app (a b : str) :
  ~ In 120%N a -> before_first_x (a ++ 120%N :: b) = replace_glyphs a.
Proof.
  intros H. unfold before_first_x. fold (replace_glyphs (a ++ 120%N :: b)).
  rewrite replace_glyphs_app.
  change (replace_glyphs (120%N :: b)) with (120%N :: replace_glyphs b).
  apply split_on_first. apply replace_glyphs_no_x. exact H.
Qed.

End SizeValue.

(** On a non-empty size [size_to_float] reads the first token of the part
    before the first [x], after the fraction glyphs have been replaced:
    it returns what [float] makes of that token, [0.0] when [float]
    rejects it, and raises [IndexError] when there is no such token.
    Everything from the first [x] on is ignored. *)
Theorem size_to_float_reads_first_token (B : PyBuiltins) :
  (forall size : str,
      size <> [] ->
      size_to_float (Some size)
      = match split (before_first_x size) with
        | [] => Raise IndexError
        | t :: _ =>
            Ok (match float_of_str t with Some f => f | None => fzero end)
        end)
  /\ (forall a b b' : str,
        ~ In 120%N a ->
        before_first_x (a ++ 120%N :: b) = replace_glyphs a
        /\ size_to_float (Some (a ++ 120%N :: b))
           = size_to_float (Some (a ++ 120%N :: b'))).
Proof.
  split; [apply size_to_float_value|].
  intros a b b' H. split; [apply before_first_x_app; exact H|].
  rewrite !size_to_float_value by (destruct a; discriminate).
  rewrite !before_first_x_app by exact H. reflexivity.
Qed.

(** One and a half, written with the glyph and followed by a dimension
    suffix, reads as 3/2. *)
Lemma size_to_float_reads_first_token_witness :
  RunExamples.glyph_size <> []
  /\ match size_to_float (B := Examples.B0) (Some RunExamples.glyph_size) with
     | Ok f => Decimal.qc_pair f = (3%Z, 2%positive)
     | _ => False
     end.
Proof.
  split; [discriminate|].
  rewrite (proj1 (size_to_float_reads_first_token Examples.B0)
             RunExamples.glyph_size) by discriminate.
  vm_compute. reflexivity.
Defined.

(** ** The outcomes of a run *)

Section Outcomes.

Context {B : PyBuiltins}.

Lemma add_sort_columns_cases (master : list MasterRow) :
  (exists keyed, add_sort_columns master = Ok keyed)
  \/ add_sort_columns master = Raise IndexError.
Proof.
  induction master as [|m master IH]; cbn [add_sort_columns]; [eauto|].
  destruct (size_to_float_cases (m_size m)) as [[f ->]| ->]; cbn [bind]; [|auto].
  destruct IH as [[keyed ->]| ->]; cbn [bind]; eauto.
Qed.

Lemma sorted_master_cases (master : list MasterRow) :
  (exists sorted, sorted_master master = Ok sorted)
  \/ sorted_master master = Raise IndexError.
Proof.
  unfold sorted_master.
  destruct (add_sort_columns_cases master) as [[keyed ->]| ->]; cbn [bind]; eauto.
Qed.

Lemma sorted_master_perm (master sorted : list MasterRow) :
  sorted_master master = Ok sorted -> Permutation master sorted.
Proof.
  unfold sorted_master. intros E.
  destruct (add_sort_columns master) as [keyed| |] eqn:K; try discriminate.
  cbn [bind] in E. inversion E; subst.
  apply add_sort_columns_spec in K as [<- _].
  apply Permutation_map. apply sort_values_perm.
Qed.

Lemma sorted_master_ok_iff (master : list MasterRow) :
  (exists sorted, sorted_master master = Ok sorted)
  <-> Forall (fun m => size_readable (m_size m)) master.
Proof.
  rewrite Forall_forall. split.
  - intros [sorted E] m Hm. unfold sorted_master in E.
    destruct (add_sort_columns master) as [keyed| |] eqn:K; try discriminate.
    apply add_sort_columns_spec in K as [Hmap Hall].
    rewrite <- Hmap in Hm. apply in_map_iff in Hm as [x [<- Hx]].
    rewrite Forall_forall in Hall. destruct (Hall x Hx) as [_ F].
    apply size_to_float_ok_iff. eauto.
  - intros H. unfold sorted_master.
    destruct (add_sort_columns_ok master) as [keyed ->]; [|cbn [bind]; eauto].
    intros m Hm. apply size_to_float_ok_iff. apply H. exact Hm.
Qed.

Lemma master_sizes (rows : list Row) :
  Forall (fun m => size_readable (m_size m)) (groupby_sum rows)
  <-> Forall (fun r => size_readable (size r)) rows.
Proof.
  rewrite !Forall_forall. split.
  - intros H r Hr.
    assert (Hk : In (group_key r) (map master_key (groupby_sum rows))).
    { rewrite master_key_groupby. apply group_keys_In. eauto. }
    apply in_map_iff in Hk as [m [Hm Hin]].
    specialize (H m Hin). unfold master_key, group_key in Hm.
    inversion Hm. congruence.
  - intros H m Hm. apply groupby_sum_In in Hm as [Hk _].
    apply group_keys_In in Hk as [r [Hr Hkey]].
    specialize (H r Hr). unfold master_key, group_key in Hkey.
    inversion Hkey. congruence.
Qed.

Lemma extract_all_records (pdfs : list PdfFile) :
  exists rows,
    for_extend extract_pdf pdfs [] = Ok rows /\ Forall (record_of pdfs) rows.
Proof.
  apply for_extend_Forall. intros pdf Hpdf.
  destruct (extract_pdf_records pdf) as [rows [E Hok]].
  exists rows. split; [exact E|].
  eapply Forall_impl; [|exact Hok]. intros r Hr. exists pdf. auto.
Qed.

(** Every run goes one of the five ways. *)
Lemma main_cases (w : World) (rows : list Row) :
  for_extend extract_pdf (input_pdfs w) [] = Ok rows ->
  main_outcome w rows (main w).
Proof.
  intros E. unfold main.
  destruct (input_dir_exists w) eqn:Hdir; cbn [negb];
    [|apply MissingFolder; exact Hdir].
  change (input_pdfs (mkdir_output w)) with (input_pdfs w).
  destruct (input_pdfs w) as [|pdf pdfs] eqn:Hpdfs; cbn [is_nil].
  { apply NoPdfs; assumption. }
  rewrite E.
  destruct rows as [|r rows]; cbn [is_nil].
  { apply NoRows; congruence. }
  destruct (sorted_master_cases (groupby_sum (r :: rows))) as [[sorted S]|S];
    rewrite S.
  - apply WriterCalled; [|exact S].
    split; [exact Hdir|]. split; [discriminate|].
    apply master_sizes. apply sorted_master_ok_iff. eauto.
  - apply UnreadableSize; try assumption; [discriminate|].
    intros H. apply master_sizes in H. apply sorted_master_ok_iff in H
      as [sorted S']. congruence.
Qed.

Lemma write_output_frame (w : World) (master : list MasterRow) (df : list Row) :
  input_dir_exists (fst (write_output w master df)) = input_dir_exists w
  /\ input_dir_resolved (fst (write_output w master df)) = input_dir_resolved w
  /\ input_pdfs (fst (write_output w master df)) = input_pdfs w
  /\ output_dir_exists (fst (write_output w master df)) = output_dir_exists w
  /\ excel_writer (fst (write_output w master df)) = excel_writer w
  /\ (output_file (fst (write_output w master df)),
      snd (write_output w master df))
     = excel_writer w (output_file w) master df.
Proof.
  unfold write_output.
  destruct (excel_writer w (output_file w) master df) as [file res].
  cbn. auto 10.
Qed.

End Outcomes.


(** When [main] returns normally, the workbook writer has returned
    normally on the two data frames it was given: the raw frame holds the
    records of all documents in extraction order, each a well-formed
    record of one of the documents, and the master frame is a
    rearrangement of their aggregation (the sort and the removal of the
    helper columns neither lose nor add a master record), each master
    record carrying the key of its own fields.  The output file is left
    as the writer left it. *)
Theorem main_success_workbook (B : PyBuiltins) (w w' : World) :
  main w = (w', Ok tt) ->
  exists rows master,
    for_extend extract_pdf (input_pdfs w) [] = Ok rows
    /\ rows <> []
    /\ excel_writer w (output_file w) master rows = (output_file w', Ok tt)
    /\ Forall (record_of (input_pdfs w)) rows
    /\ Permutation (groupby_sum rows) master
    /\ Forall master_key_consistent master.
Proof.
  intros Hmain.
  destruct (extract_all_records (input_pdfs w)) as [rows [E Hrec]].
  pose proof (main_cases w E) as H. rewrite Hmain in H.
  inversion H as [| | | |master [Hd [Hr Hs]] Hm Hw]; subst.
  exists rows, master. split; [exact E|]. split; [exact Hr|].
  pose proof (sorted_master_perm _ Hm) as P.
  split; [|split; [exact Hrec|split; [exact P|]]].
  - destruct (write_output_frame (mkdir_output w) master rows)
      as [_ [_ [_ [_ [_ F6]]]]].
    first [rewrite Hw in F6 | rewrite <- Hw in F6].
    cbn [fst snd mkdir_output output_file excel_writer] in F6.
    symmetry. exact F6.
  - apply Forall_forall. intros m Hin.
    apply (Permutation_in _ (Permutation_sym P)) in Hin.
    assert (Hc : Forall key_consistent rows).
    { eapply Forall_impl; [|exact Hrec].
      intros r [pdf [_ Hok]]. apply Hok. }
    apply groupby_sum_consistent in Hc. rewrite Forall_forall in Hc. auto.
Qed.

(** The two documents of the end-to-end example of the specification,
    with a writer that does not fail: the file holds the two raw records
    and one master record of quantity 6. *)
Lemma main_success_workbook_witness :
  snd (main MoreExamples.two_documents_world) = Ok tt
  /\ (exists (rows : list (@Row Examples.B0)) master,
        rows <> []
        /\ excel_writer MoreExamples.two_documents_world
             (output_file MoreExamples.two_documents_world) master rows
           = (output_file (fst (main MoreExamples.two_documents_world)), Ok tt)
        /\ Permutation (groupby_sum rows) master)
  /\ match output_file (fst (main MoreExamples.two_documents_world)) with
     | Some (FullWorkbook wb) =>
         map (fun m : @MasterRow Examples.B0 =>
                (Decimal.qc_pair (m_quantity m), m_units m, m_size m,
                 m_description m))
             (sheet_Master wb)
         = [((6%Z, 1%positive), lit "EA", MoreExamples.half_inch,
             lit "Ball Valve")]
         /\ map (fun r : @Row Examples.B0 => source r) (sheet_RawExtract wb)
            = [lit "docA"; lit "docB"]
     | _ => False
     end.
Proof.
  assert (E : snd (main MoreExamples.two_documents_world) = Ok tt)
    by (vm_compute; reflexivity).
  split; [exact E|]. split; [|vm_compute; split; reflexivity].
  destruct (@main_success_workbook Examples.B0 MoreExamples.two_documents_world
              (fst (main MoreExamples.two_documents_world)))
    as [rows [master [_ [Hr [Hw [_ [P _]]]]]]].
  - rewrite <- E. apply surjective_pairing.
  - exists rows, master. split; [exact Hr|]. split; [exact Hw|exact P].
Defined.

(** ** Records in input order *)

Section InOrder.

Context {B : PyBuiltins}.

Lemma for_append_flat_map (A R : Type) (body : A -> result (option R))
    (xs : list A) :
  (forall x, exists o, body x = Ok o) ->
  forall rows,
    for_append body xs rows
    = Ok (rows ++ flat_map (fun x => match body x with
                                     | Ok (Some r) => [r]
                                     | _ => []
                                     end) xs).
Proof.
  intros Hbody. induction xs as [|x xs IH]; intros rows;
    cbn [for_append flat_map].
  - rewrite app_nil_r. reflexivity.
  - destruct (Hbody x) as [o ->]. cbn [bind]. rewrite IH.
    destruct o as [r|]; [rewrite <- app_assoc|]; reflexivity.
Qed.

Lemma text_records_length (source_name : str) (lines : list str) :
  length (flat_map (text_records source_name) lines)
  = length (filter text_prefix_ok lines).
Proof.
  induction lines as [|l lines IH]; [reflexivity|].
  cbn [flat_map filter]. rewrite length_app, IH. unfold text_records.
  destruct (text_prefix_ok l) eqn:E.
  - destruct (text_row_fields source_name l E) as [r [-> _]]. reflexivity.
  - rewrite (text_row_rejects source_name l E). reflexivity.
Qed.

Lemma startswith_refl (s : str) : startswith s s = true.
Proof.
  induction s as [|c s IH]; [reflexivity|].
  simpl. unfold char_eqb. rewrite N.eqb_refl. exact IH.
Qed.

End InOrder.

(** The records of a text are those of its stitched lines, in line order:
    one record for each stitched line that passes the prefix checks and
    none for the others, so that there are exactly as many records as
    accepted lines. *)
Theorem extract_rows_from_text_in_order (B : PyBuiltins)
    (text source_name : str) :
  exists lines,
    stitch_wrapped_lines (splitlines text) = Ok lines
    /\ extract_rows_from_text (Some text) source_name
       = Ok (flat_map (text_records source_name) lines)
    /\ length (flat_map (text_records source_name) lines)
       = length (filter text_prefix_ok lines).
Proof.
  exists (stitch_rec (splitlines text)).
  split; [apply stitch_wrapped_lines_rec|].
  split; [|apply text_records_length].
  unfold extract_rows_from_text.
  destruct text as [|c text]; [reflexivity|]. cbn [is_empty].
  rewrite stitch_wrapped_lines_rec. cbn [bind].
  rewrite for_append_flat_map by apply text_row_ok. reflexivity.
Qed.

(** When a table with at least two rows has a hint token among its header
    cells and all four columns are found, its records are those of its
    data rows, in row order: one record for each data row that is
    accepted and none for the others. *)
Theorem extract_rows_from_table_in_order (B : PyBuiltins)
    (t : table_grid) (source_name : str) (iq iu isz id : nat) :
  2 <= length t ->
  header_has_hint (hd [] t) ->
  find_col (table_header (hd [] t)) (lit "quantity") = Some iq ->
  find_col (table_header (hd [] t)) (lit "units") = Some iu ->
  find_col (table_header (hd [] t)) (lit "size") = Some isz ->
  find_col (table_header (hd [] t)) (lit "description") = Some id ->
  extract_rows_from_table (Some t) source_name
  = Ok (flat_map (table_records source_name iq iu isz id) (List.tl t)).
Proof.
  intros Hlen Hh Fq Fu Fs Fd.
  destruct t as [|row0 [|row1 t]]; try (simpl in Hlen; lia).
  unfold extract_rows_from_table, extract_rows_from_table_exit.
  cbn [is_nil orb length Nat.ltb Nat.leb index nth_error bind hd List.tl] in *.
  apply header_guard_iff in Hh. rewrite Hh. cbn [negb].
  rewrite Fq, Fu, Fs, Fd.
  rewrite for_append_flat_map by apply table_row_ok.
  reflexivity.
Qed.

(** The table with one exact header cell has one data row, which is
    accepted. *)
Lemma extract_rows_from_table_in_order_witness :
  exists r : @Row Examples.B0,
    extract_rows_from_table (Some Examples.plain_table) (lit "doc") = Ok [r]
    /\ description r = lit "Ball Valve".
Proof.
  assert (Hh : header_has_hint (B := Examples.B0) (hd [] Examples.plain_table)).
  { exists (Some (lit "Quantity")). split; [left; reflexivity|].
    left. vm_compute. reflexivity. }
  pose proof (@extract_rows_from_table_in_order Examples.B0
                Examples.plain_table (lit "doc") 0 1 2 3) as H.
  eexists. split.
  - rewrite H; [|simpl; lia|exact Hh|vm_compute; reflexivity ..].
    vm_compute. reflexivity.
  - vm_compute. reflexivity.
Defined.

(** The marker test is a prefix test: a token starts a description
    exactly when its lower-cased form begins with one of the markers, the
    test for equality adding nothing. *)
Theorem is_desc_start_prefix (B : PyBuiltins) (t : str) :
  is_desc_start t = existsb (fun k => startswith (lower t) k) DESC_START_TOKENS.
Proof.
  unfold is_desc_start.
  induction DESC_START_TOKENS as [|k ks IH]; [reflexivity|].
  cbn [existsb]. rewrite IH. f_equal.
  destruct (str_eqb (lower t) k) eqn:E; [|reflexivity].
  apply str_eqb_eq in E. rewrite <- E. cbn [orb]. symmetry.
  apply startswith_refl.
Qed.
